(** * Text steganography codec and recommender: a shallow embedding

    The development follows [src/shared/steganography/text_steganography.py]
    (class [TextSteganography]), [src/shared/steganography/ai_analyzer.py]
    (class [AIAnalyzer]) and the two handlers of
    [src/backend/routes/text_steg.py].

    Python values are represented as follows.
    - A [str] is the list of its Unicode code points ([N]).
    - The bit strings the codec builds contain only the characters '0' and
      '1'; they are lists of [bool] ([true] is '1').
    - [len] results that take part in signed arithmetic are in [Z].
    - A call either returns or raises: [result]. *)

From Stdlib Require Import List ZArith NArith Lia Bool.
From Stdlib Require Strings.String Strings.Ascii.
From Stdlib Require Import Floats.
Import ListNotations.
Import String.StringSyntax.
Delimit Scope string_scope with string.

Set Warnings "-inexact-float".

(** ** Python strings *)

Module PyStr.

Definition char := N.
Definition str := list char.

(** A Python string literal of ASCII characters. *)
Definition lit (s : String.string) : str :=
  map Ascii.N_of_ascii (String.list_ascii_of_string s).
Arguments lit s%_string.

(** [a == b] *)
Fixpoint str_eqb (a b : str) : bool :=
  match a, b with
  | [], [] => true
  | x :: a', y :: b' => (x =? y)%N && str_eqb a' b'
  | _, _ => false
  end.

Definition in_range (lo hi c : N) : bool := ((lo <=? c) && (c <=? hi))%N.

(** [c.isspace()], which is also the separator test of [str.split()] without
    arguments: the Unicode white-space code points. *)
Definition isspace (c : char) : bool :=
  in_range 0x09 0x0D c || in_range 0x1C 0x20 c ||
  (c =? 0x85)%N || (c =? 0xA0)%N || (c =? 0x1680)%N ||
  in_range 0x2000 0x200A c || (c =? 0x2028)%N || (c =? 0x2029)%N ||
  (c =? 0x202F)%N || (c =? 0x205F)%N || (c =? 0x3000)%N.

Definition SPACE : char := 0x20%N.
Definition TAB : char := 0x09%N.

(** [s.split()]: maximal runs of non-space characters, in order. [cur] is the
    run being read. *)
Fixpoint split_from (cur : str) (s : str) : list str :=
  match s with
  | [] => match cur with [] => [] | _ => [cur] end
  | c :: s' =>
      if isspace c
      then match cur with [] => split_from [] s' | _ => cur :: split_from [] s' end
      else split_from (cur ++ [c]) s'
  end.

Definition split (s : str) : list str := split_from [] s.

(** [sep.join(ws)] *)
Fixpoint join (sep : str) (ws : list str) : str :=
  match ws with
  | [] => []
  | [w] => w
  | w :: ws' => w ++ sep ++ join sep ws'
  end.

(** [c in chars] *)
Definition mem (c : char) (chars : str) : bool := existsb (N.eqb c) chars.

(** [s.strip(chars)]: leading and trailing characters of [chars] removed. *)
Fixpoint lstrip (chars : str) (s : str) : str :=
  match s with
  | [] => []
  | c :: s' => if mem c chars then lstrip chars s' else s
  end.

Definition rstrip (chars : str) (s : str) : str := rev (lstrip chars (rev s)).

Definition strip (chars : str) (s : str) : str := rstrip chars (lstrip chars s).

(** *** Character classes and case mappings

    Python takes these from the Unicode character database. The tables below
    are exact on U+0000..U+00FF (one byte per character) and on the two code
    points that [upper] maps out of that range (U+0178 and U+039C, with their
    lower-case images); every other code point is treated as a caseless
    non-letter, which is not what Python does outside that range. Statements
    that depend on these tables are therefore made for text in
    U+0000..U+00FF ([latin1]), or for any tables at all (section
    [UnicodeTables] below, where the library functions are parameters). *)

Definition latin1 (s : str) : Prop := Forall (fun c => (c < 256)%N) s.

Definition latin1b (s : str) : bool := forallb (fun c => (c <? 256)%N) s.

(** [c.isalpha()], on the range of the tables *)
Definition isalpha (c : char) : bool :=
  in_range 0x41 0x5A c || in_range 0x61 0x7A c ||
  (c =? 0xAA)%N || (c =? 0xB5)%N || (c =? 0xBA)%N ||
  (in_range 0xC0 0xFF c && negb (c =? 0xD7)%N && negb (c =? 0xF7)%N) ||
  (c =? 0x178)%N || (c =? 0x39C)%N || (c =? 0x3BC)%N.

(** [c.isupper()] for a single character, on the range of the tables *)
Definition isupper (c : char) : bool :=
  in_range 0x41 0x5A c || (in_range 0xC0 0xDE c && negb (c =? 0xD7)%N) ||
  (c =? 0x178)%N || (c =? 0x39C)%N.

(** The lower-case image of one character (a single character on the range
    of the tables). *)
Definition lower_char (c : char) : char :=
  if in_range 0x41 0x5A c || (in_range 0xC0 0xDE c && negb (c =? 0xD7)%N)
  then (c + 32)%N
  else if (c =? 0x178)%N then 0xFF%N
  else if (c =? 0x39C)%N then 0x3BC%N
  else c.

(** The upper-case image of one character, on the range of the tables:
    U+00DF gives two characters. *)
Definition upper_char (c : char) : str :=
  if in_range 0x61 0x7A c || (in_range 0xE0 0xFE c && negb (c =? 0xF7)%N)
  then [(c - 32)%N]
  else if (c =? 0xDF)%N then [0x53%N; 0x53%N]
  else if (c =? 0xFF)%N then [0x178%N]
  else if (c =? 0xB5)%N then [0x39C%N]
  else if (c =? 0x3BC)%N then [0x39C%N]
  else [c].

(** [s.lower()] and [s.upper()], on the range of the tables *)
Definition lower (s : str) : str := map lower_char s.
Definition upper (s : str) : str := flat_map upper_char s.

(** [s.capitalize()]: first character upper-cased, the rest lower-cased (the
    source applies it to the ASCII words of its synonym table only). *)
Definition capitalize (s : str) : str :=
  match s with
  | [] => []
  | c :: rest => upper_char c ++ lower rest
  end.

End PyStr.
Import PyStr.

(** ** Outcomes of a call *)

Inductive exn : Type :=
  | ValueError (msg : str)
  | ZeroDivisionError
  | IndexError.

Inductive result (A : Type) : Type :=
  | Ok (a : A)
  | Raise (e : exn).
Arguments Ok {A} a.
Arguments Raise {A} e.

Definition bind {A B} (r : result A) (k : A -> result B) : result B :=
  match r with Ok a => k a | Raise e => Raise e end.

(** ** The shared bit serialisation *)

Module BitCodec.

Definition bits := list bool.

(** Binary digits of [n], most significant first, no leading zeros
    ([format(n, 'b')], with the empty list for 0). *)
Definition bin_digits (n : N) : bits :=
  map (N.testbit n) (rev (map N.of_nat (seq 0 (N.to_nat (N.size n))))).

(** [format(n, '08b')]: the binary digits, zero-padded on the left to a width
    of at least 8. *)
Definition format_08b (n : N) : bits :=
  let d := bin_digits n in repeat false (8 - length d) ++ d.

Definition END_MARKER : bits := repeat false 8.

(** [''.join(format(ord(char), '08b') for char in secret_message) + '00000000'] *)
Definition to_binary (secret_message : str) : bits :=
  flat_map format_08b secret_message ++ END_MARKER.

(** [int(byte, 2)] on a string of '0'/'1'. *)
Definition int2 (byte : bits) : N :=
  fold_left (fun acc (b : bool) => (2 * acc + (if b then 1 else 0))%N) byte 0%N.

(** [chr(n)]; raises [ValueError] ([None]) at or above 0x110000. *)
Definition chr (n : N) : option char :=
  if (n <? 0x110000)%N then Some n else None.

(** [s[i:j]] for [0 <= i <= j]. *)
Definition slice {A} (s : list A) (i j : nat) : list A := firstn (j - i) (skipn i s).

Fixpoint bits_eqb (a b : bits) : bool :=
  match a, b with
  | [], [] => true
  | x :: a', y :: b' => Bool.eqb x y && bits_eqb a' b'
  | _, _ => false
  end.

(** [range(0, stop, 8)] *)
Definition range8 (stop : nat) : list nat :=
  map (fun k => 8 * k) (seq 0 ((stop + 7) / 8)).

(** The loop "Convert binary to text" that closes each of the three
    extractors (lines 132-147, 298-313 and 398-413 are the same text):
    [idx] is what is left of [range(0, len(binary_message), 8)]; returning
    [message] early is the [break]. *)
Fixpoint decode_loop (binary_message : bits) (idx : list nat) (message : str) : str :=
  match idx with
  | [] => message
  | i :: idx' =>
      if i + 8 <=? length binary_message then
        let byte := slice binary_message i (i + 8) in
        if bits_eqb byte END_MARKER then message
        else match chr (int2 byte) with
             | Some c => decode_loop binary_message idx' (message ++ [c])
             | None => decode_loop binary_message idx' message
             end
      else decode_loop binary_message idx' message
  end.

Definition decode_binary (binary_message : bits) : str :=
  decode_loop binary_message (range8 (length binary_message)) [].

(** *** The decoder in the words of the specification

    "read 8-bit groups left to right; on a group equal to 00000000 stop and
    return bytes decoded so far; a trailing incomplete group is ignored; if
    the string is consumed without meeting the terminator, return everything
    decoded". *)

(** The complete 8-bit groups, left to right. *)
Definition groups (b : bits) : list bits :=
  map (fun k => slice b (8 * k) (8 * k + 8)) (seq 0 (length b / 8)).

Fixpoint take_until_marker (gs : list bits) : list bits :=
  match gs with
  | [] => []
  | g :: gs' => if bits_eqb g END_MARKER then [] else g :: take_until_marker gs'
  end.

Definition fromBits_spec (b : bits) : str :=
  map int2 (take_until_marker (groups b)).

(** No complete group is the terminator. *)
Definition no_terminator (b : bits) : Prop :=
  Forall (fun g => g <> END_MARKER) (groups b).

End BitCodec.
Import BitCodec.

(** ** [TextSteganography] *)

Module TextSteganography.

Definition len {A} (l : list A) : Z := Z.of_nat (length l).

(** *** Whitespace method *)

(** Lines 76-80: [while len(words) - 1 < len(binary_message):
    words.append(words[len(words) % len(cover_text.split())])] (the [if]
    around the loop has the same test).
    [cover_words] is [cover_text.split()]. The loop runs at most [fuel] times;
    [_embed_whitespace] passes the number of missing gaps, and
    [extend_words_exit] below shows that the loop then ends on its own test. *)
Fixpoint extend_words (fuel : nat) (cover_words : list str) (binary_message : bits)
    (words : list str) : result (list str) :=
  match fuel with
  | O => Ok words
  | S fuel' =>
      if (len words - 1 <? len binary_message)%Z then
        if (len cover_words =? 0)%Z then Raise ZeroDivisionError
        else match nth_error words (Z.to_nat (len words mod len cover_words)) with
             | Some w => extend_words fuel' cover_words binary_message (words ++ [w])
             | None => Raise IndexError
             end
      else Ok words
  end.

(** Lines 85-94: one round of [for i in range(len(words))]. *)
Definition stego_step (words : list str) (binary_message : bits)
    (stego_words : list str) (i : nat) : list str :=
  let stego_words := stego_words ++ [nth i words []] in
  if (Z.of_nat i <? len words - 1)%Z then
    if (Z.of_nat i <? len binary_message)%Z then
      let space := if nth i binary_message false then [TAB] else [SPACE] in
      stego_words ++ [space]
    else stego_words ++ [[SPACE]]
  else stego_words.

Definition _embed_whitespace (cover_text secret_message : str) : result str :=
  let binary_message := to_binary secret_message in
  let words := split cover_text in
  bind (extend_words (Z.to_nat (len binary_message - (len words - 1)))
          (split cover_text) binary_message words)
    (fun words =>
       let stego_words :=
         fold_left (stego_step words binary_message) (seq 0 (length words)) [] in
       Ok (concat stego_words)).

(** Lines 113-120: one character of the scan; the state is
    [(parts, current_part)]. *)
Definition scan_step (st : list str * str) (c : char) : list str * str :=
  let '(parts, current_part) := st in
  if (c =? SPACE)%N || (c =? TAB)%N then
    let parts := match current_part with [] => parts | _ => parts ++ [current_part] end in
    (parts ++ [[c]], [])
  else (parts, current_part ++ [c]).

Definition scan_parts (stego_text : str) : list str :=
  let '(parts, current_part) := fold_left scan_step stego_text ([], []) in
  match current_part with [] => parts | _ => parts ++ [current_part] end.

(** Lines 126-130 *)
Definition part_step (binary_message : bits) (part : str) : bits :=
  if str_eqb part [TAB] then binary_message ++ [true]
  else if str_eqb part [SPACE] then binary_message ++ [false]
  else binary_message.

(** The bit string the whitespace extractor recovers. *)
Definition whitespace_bits (stego_text : str) : bits :=
  fold_left part_step (scan_parts stego_text) [].

Definition _extract_whitespace (stego_text : str) : str :=
  decode_binary (whitespace_bits stego_text).

(** *** Synonym method *)

(** The thirteen characters of the strip set of lines 196 and 278: full
    stop, comma, exclamation mark, question mark, semicolon, colon, double
    quote, and the round, square and curly brackets. *)
Definition PUNCT : str := lit ".,!?;:" ++ [0x22%N] ++ lit "()[]{}".

(** The table of lines 161-183 (and, again, 250-272), in insertion order. *)
Definition synonyms : list (str * list str) :=
  map (fun e => (lit (fst e), map lit (snd e)))
  [ ("the", ["the"; "this"; "that"; "these"; "those"]);
    ("and", ["and"; "also"; "plus"; "furthermore"; "moreover"]);
    ("or", ["or"; "either"; "else"; "alternatively"; "otherwise"]);
    ("but", ["but"; "however"; "yet"; "nevertheless"; "nonetheless"]);
    ("is", ["is"; "exists"; "appears"; "seems"; "represents"]);
    ("are", ["are"; "exist"; "seem"; "appear"; "represent"]);
    ("was", ["was"; "were"; "existed"; "occurred"; "happened"]);
    ("were", ["were"; "was"; "seemed"; "appeared"; "occurred"]);
    ("have", ["have"; "possess"; "own"; "contain"; "hold"]);
    ("has", ["has"; "possesses"; "owns"; "contains"; "holds"]);
    ("had", ["had"; "possessed"; "owned"; "contained"; "held"]);
    ("do", ["do"; "perform"; "execute"; "accomplish"; "achieve"]);
    ("does", ["does"; "performs"; "executes"; "accomplishes"; "achieves"]);
    ("did", ["did"; "performed"; "executed"; "accomplished"; "achieved"]);
    ("will", ["will"; "shall"; "going to"; "intend to"; "plan to"]);
    ("would", ["would"; "should"; "going to"; "intend to"; "plan to"]);
    ("could", ["could"; "might"; "possibly"; "potentially"; "perhaps"]);
    ("should", ["should"; "ought to"; "must"; "need to"; "have to"]);
    ("may", ["may"; "might"; "possibly"; "potentially"; "perhaps"]);
    ("can", ["can"; "could"; "able to"; "capable of"; "permitted to"]);
    ("be", ["be"; "exist"; "become"; "appear"; "seem"]) ]%string.

(** [synonyms[key]] when [key in synonyms] *)
Definition lookup (key : str) (table : list (str * list str)) : option (list str) :=
  match find (fun e => str_eqb (fst e) key) table with
  | Some e => Some (snd e)
  | None => None
  end.

(** [word.lower().strip(PUNCT)] *)
Definition clean (word : str) : str := strip PUNCT (lower word).

(** Lines 194-222: one round of [for i, word in enumerate(words)]; the state
    is [(stego_words, bit_index)]. *)
Definition synonym_step (binary_message : bits) (st : list str * nat) (word : str)
    : list str * nat :=
  let '(stego_words, bit_index) := st in
  let clean_word := clean word in
  let punctuation := filter (fun c => mem c PUNCT) word in
  let is_capitalized := match word with c :: _ => isupper c | [] => false end in
  match lookup clean_word synonyms with
  | Some options =>
      if bit_index <? length binary_message then
        let bit := nth bit_index binary_message false in
        let synonym :=
          if bit then (if 1 <? length options then nth 1 options [] else nth 0 options [])
          else nth 0 options [] in
        let synonym := if is_capitalized then capitalize synonym else synonym in
        let synonym := synonym ++ punctuation in
        (stego_words ++ [synonym], bit_index + 1)
      else (stego_words ++ [word], bit_index)
  | None => (stego_words ++ [word], bit_index)
  end.

(** Lines 225-235 and 362-372: [while bit_index < len(binary_message)],
    appending [one] for a 1 and [zero] for a 0. Each round advances
    [bit_index] by one, so [len(binary_message) - bit_index] rounds, the fuel
    the callers pass, end the loop on its own test ([dummy_loop_exit]). *)
Fixpoint dummy_loop (fuel : nat) (one zero : str) (binary_message : bits)
    (st : list str * nat) : list str * nat :=
  match fuel with
  | O => st
  | S fuel' =>
      let '(stego_words, bit_index) := st in
      if bit_index <? length binary_message then
        let dummy_word := if nth bit_index binary_message false then one else zero in
        dummy_loop fuel' one zero binary_message (stego_words ++ [dummy_word], bit_index + 1)
      else st
  end.

Definition _embed_synonym (cover_text secret_message : str) : str :=
  let binary_message := to_binary secret_message in
  let words := split cover_text in
  let st := fold_left (synonym_step binary_message) words ([], 0) in
  let st := dummy_loop (length binary_message - snd st)
              (lit "Furthermore") (lit "and") binary_message st in
  join [SPACE] (fst st).

(** Lines 281-289: the first table entry, in order, whose alternative 0 or 1
    is [clean_word]. *)
Fixpoint match_table (clean_word : str) (table : list (str * list str)) : option bool :=
  match table with
  | [] => None
  | (_, options) :: rest =>
      if str_eqb clean_word (nth 0 options []) then Some false
      else if (1 <? length options) && str_eqb clean_word (nth 1 options []) then Some true
      else match_table clean_word rest
  end.

(** Lines 279-296: the bit a cleaned word contributes, if any. *)
Definition clean_bit (clean_word : str) : option bool :=
  match match_table clean_word synonyms with
  | Some b => Some b
  | None =>
      if str_eqb clean_word (lit "furthermore") then Some true
      else if str_eqb clean_word (lit "and") then Some false
      else None
  end.

(** Lines 278-296 *)
Definition word_bit (word : str) : option bool := clean_bit (clean word).

Definition synonym_bit_step (binary_message : bits) (word : str) : bits :=
  match word_bit word with
  | Some b => binary_message ++ [b]
  | None => binary_message
  end.

(** The bit string the synonym extractor recovers. *)
Definition synonym_bits (stego_text : str) : bits :=
  fold_left synonym_bit_step (split stego_text) [].

Definition _extract_synonym (stego_text : str) : str :=
  decode_binary (synonym_bits stego_text).

(** *** Capitalisation ("binary") method *)

(** Lines 335-359: one round of the loop over the words. *)
Definition binary_step (binary_message : bits) (st : list str * nat) (word : str)
    : list str * nat :=
  let '(stego_words, bit_index) := st in
  if bit_index <? length binary_message then
    let bit := nth bit_index binary_message false in
    let clean_word := filter isalpha word in
    let punctuation := filter (fun c => negb (isalpha c)) word in
    let processed_word :=
      if bit then
        match clean_word with
        | [] => clean_word
        | c :: rest =>
            if 1 <? length clean_word then upper [c] ++ lower rest else upper clean_word
        end
      else lower clean_word in
    (stego_words ++ [processed_word ++ punctuation], bit_index + 1)
  else (stego_words ++ [word], bit_index).

Definition _embed_binary (cover_text secret_message : str) : str :=
  let binary_message := to_binary secret_message in
  let words := split cover_text in
  let st := fold_left (binary_step binary_message) words ([], 0) in
  let st := dummy_loop (length binary_message - snd st)
              (lit "Data") (lit "data") binary_message st in
  join [SPACE] (fst st).

(** Lines 390-396 *)
Definition binary_bit_step (binary_message : bits) (word : str) : bits :=
  let clean_word := filter isalpha word in
  match clean_word with
  | c :: _ => if isupper c then binary_message ++ [true] else binary_message ++ [false]
  | [] => binary_message ++ [false]
  end.

(** The bit string the capitalisation extractor recovers. *)
Definition binary_bits (stego_text : str) : bits :=
  fold_left binary_bit_step (split stego_text) [].

Definition _extract_binary (stego_text : str) : str :=
  decode_binary (binary_bits stego_text).

(** *** Dispatch on the method name (lines 28-35 and 48-55) *)

Definition unsupported (method : str) : exn :=
  ValueError (lit "Unsupported method: " ++ method).

Definition embed_message (cover_text secret_message method : str) : result str :=
  if str_eqb method (lit "whitespace") then _embed_whitespace cover_text secret_message
  else if str_eqb method (lit "synonym") then Ok (_embed_synonym cover_text secret_message)
  else if str_eqb method (lit "binary") then Ok (_embed_binary cover_text secret_message)
  else Raise (unsupported method).

Definition extract_message (stego_text method : str) : result str :=
  if str_eqb method (lit "whitespace") then Ok (_extract_whitespace stego_text)
  else if str_eqb method (lit "synonym") then Ok (_extract_synonym stego_text)
  else if str_eqb method (lit "binary") then Ok (_extract_binary stego_text)
  else Raise (unsupported method).

(** The bit string [extract_message] decodes, per method. *)
Definition recovered_bits (stego_text method : str) : bits :=
  if str_eqb method (lit "whitespace") then whitespace_bits stego_text
  else if str_eqb method (lit "synonym") then synonym_bits stego_text
  else binary_bits stego_text.

(** *** The built-in heuristic (lines 415-446) *)

(** The dictionary [analyze_text] returns. *)
Record TextAnalysis : Type := mkTextAnalysis {
  analysis_word_count : nat;
  analysis_char_count : nat;
  analysis_recommended_method : str;
  analysis_confidence : float
}.

Definition analyze_text (text : str) : TextAnalysis :=
  let word_count := length (split text) in
  let char_count := length text in
  let recommended_method :=
    if word_count <? 50 then lit "whitespace" else lit "synonym" in
  mkTextAnalysis word_count char_count recommended_method 0.75%float.

End TextSteganography.
Import TextSteganography.

(** ** [AIAnalyzer]: the recommender *)

Module AIAnalyzer.

(** Python floats are IEEE 754 binary64 numbers, as are Rocq's primitive
    floats. An [int] operand of a float operation or comparison is converted
    first; the conversion is exact for the counts met here (below 2^53). *)
Definition float_of_nat (n : nat) : float :=
  PrimFloat.of_uint63 (Uint63.of_Z (Z.of_nat n)).

(** [min(a, b)] on floats: [b] only when it is smaller. *)
Definition py_min (a b : float) : float := if (b <? a)%float then b else a.

(** Lines 36-37 *)
Definition synonym_words : list str :=
  map lit [ "the"; "and"; "or"; "but"; "is"; "are"; "was"; "were"; "have"; "has";
            "had"; "do"; "does"; "did"; "will"; "would"; "could"; "should"; "may";
            "can"; "be" ]%string.

(** [len(set(word.lower() for word in words))] *)
Definition unique_lower (words : list str) : nat :=
  length (nodup (list_eq_dec N.eq_dec) (map lower words)).

(** Lines 201-216 *)
Definition _calculate_text_complexity (text : str) : float :=
  let words := split text in
  match words with
  | [] => 0%float
  | _ =>
      let avg_length :=
        (float_of_nat (list_sum (map (@length char) words)) / float_of_nat (length words))%float in
      let unique_words := unique_lower words in
      let diversity := (float_of_nat unique_words / float_of_nat (length words))%float in
      let length_score := py_min (avg_length / 10)%float 1%float in
      let diversity_score := diversity in
      ((length_score + diversity_score) / 2)%float
  end.

(** The fields of the returned dictionary that the codec's callers read.
    [confidence] is [round(confidence, 2)], which returns each of the five
    two-decimal literals unchanged. The rounded float fields
    ([avg_word_length], [complexity_score]) and the text fields
    ([explanation], [security_insights], [optimization_tips]) are left out. *)
Record AnalysisResult : Type := mkAnalysis {
  word_count : nat;
  char_count : nat;
  synonym_word_count : nat;
  recommended_method : str;
  confidence : float;
  estimated_capacity : nat
}.

(** Lines 44-68: the rule chain, on the computed statistics. *)
Definition choose_method (word_count char_count synonym_count : nat)
    (complexity_score : float) : str * float :=
  if word_count <? 30 then (lit "whitespace", 0.95%float)
  else if (float_of_nat word_count * 0.4 <? float_of_nat synonym_count)%float
  then (lit "synonym", 0.9%float)
  else if (0.8 <? complexity_score)%float then (lit "synonym", 0.85%float)
  else if (200 <? word_count) && (1000 <? char_count) then (lit "binary", 0.8%float)
  else (lit "whitespace", 0.75%float).

(** Lines 30-93 *)
Definition analyze_text_for_steganography (text : str) : AnalysisResult :=
  let words := split text in
  let word_count := length words in
  let char_count := length text in
  let synonym_count :=
    length (filter (fun word => existsb (str_eqb (strip PUNCT (lower word))) synonym_words)
              words) in
  let complexity_score := _calculate_text_complexity text in
  let '(recommended_method, confidence) :=
    choose_method word_count char_count synonym_count complexity_score in
  let estimated_capacity :=
    if str_eqb recommended_method (lit "whitespace") then word_count / 3
    else if str_eqb recommended_method (lit "synonym")
    then Nat.min synonym_count (word_count / 4)
    else word_count / 5 in
  mkAnalysis word_count char_count synonym_count recommended_method confidence
    estimated_capacity.

(** *** Security level and insights *)

(** Lines 228-251 *)
Definition _calculate_security_level (strength : str) (confidence : float) : str :=
  if str_eqb strength (lit "low") && (0.8 <? confidence)%float then lit "high"
  else if str_eqb strength (lit "low") && (0.6 <? confidence)%float then lit "medium"
  else if str_eqb strength (lit "medium") && (0.7 <? confidence)%float then lit "medium"
  else if str_eqb strength (lit "medium") && (0.5 <? confidence)%float then lit "low"
  else if str_eqb strength (lit "high") then lit "low"
  else lit "low".

(** [n] times the star U+2B50 that opens each overall assessment. *)
Definition stars (n : nat) : str := repeat 0x2B50%N n.

Definition FIVE_STARS : str := stars 5 ++ lit " Exceptional choice for secure steganography!".
Definition FOUR_STARS : str :=
  stars 4 ++ lit " Strong security profile with reliable concealment.".
Definition THREE_STARS : str := stars 3 ++ lit " Good security with acceptable risk levels.".

(** Lines 300-315: the dictionary, as its items in insertion order. *)
Definition _generate_security_insights (method : str) (confidence : float)
    : list (str * str) :=
  let insights :=
    [ (lit "method_strength",
       lit "The " ++ method ++ lit " method offers excellent concealment for this text type.");
      (lit "detection_resistance",
       lit "This approach minimizes statistical anomalies that could reveal hidden data.");
      (lit "covert_capacity",
       lit "Balanced capacity and invisibility for effective covert communication.") ] in
  if (0.8 <? confidence)%float then insights ++ [(lit "overall_assessment", FIVE_STARS)]
  else if (0.7 <? confidence)%float then insights ++ [(lit "overall_assessment", FOUR_STARS)]
  else insights ++ [(lit "overall_assessment", THREE_STARS)].

(** [d[key]] on a dictionary given by its items. *)
Definition item (key : str) (d : list (str * str)) : option str :=
  match find (fun kv => str_eqb (fst kv) key) d with
  | Some kv => Some (snd kv)
  | None => None
  end.

(** The entry [security_insights] of the dictionary that
    [analyze_text_for_steganography] returns (line 91): the insights for the
    recommended method and its confidence. *)
Definition security_insights (text : str) : list (str * str) :=
  let analysis := analyze_text_for_steganography text in
  _generate_security_insights (recommended_method analysis) (confidence analysis).

(** *** Embedding optimisation (lines 147-199), for [media_type == "text"]

    The fields of the returned dictionary other than the rounded
    [capacity_utilization] and the generated texts; [utilization] is
    [capacity_utilization] before rounding. *)
Record Optimization : Type := mkOptimization {
  optimized_method : str;
  embedding_strength : str;
  optimized_confidence : float;
  utilization : float;
  security_level : str;
  optimized_capacity : nat;
  secret_data_size : nat
}.

Definition optimize_embedding (cover_media secret_data : str) : Optimization :=
  let secret_size := length secret_data in
  let analysis := analyze_text_for_steganography cover_media in
  let capacity := estimated_capacity analysis in
  let capacity_utilization :=
    if 0 <? capacity then (float_of_nat secret_size / float_of_nat capacity)%float
    else 0%float in
  let strength :=
    if (capacity_utilization <? 0.1)%float then lit "low"
    else if (capacity_utilization <? 0.3)%float then lit "medium"
    else lit "high" in
  let security_level := _calculate_security_level strength (confidence analysis) in
  mkOptimization (recommended_method analysis) strength (confidence analysis)
    capacity_utilization security_level capacity secret_size.

(** *** The simulated detector (lines 253-298 and 416-436)

    [detection_score] is what [random.random()] returned. Of the returned
    dictionary the rounded numbers and the formatted confidence are left
    out; [assessment] is the entry of that name in [detection_insights]. *)
Record Detection : Type := mkDetection {
  steganography_detected : bool;
  recommended_action : str;
  risk_level : str;
  assessment : str
}.

(** The warning sign U+26A0 U+FE0F that opens each risk text. *)
Definition WARNING : str := [0x26A0%N; 0xFE0F%N].

(** Lines 426-430: the dictionary [risk_levels]. *)
Definition risk_levels : list (str * str) :=
  [ (lit "critical", WARNING ++ lit " CRITICAL: Immediate investigation required");
    (lit "high", WARNING ++ lit " HIGH RISK: Detailed forensic analysis recommended");
    (lit "medium", WARNING ++ lit " MEDIUM RISK: Enhanced monitoring advised") ].

(** Lines 416-436, the entry [assessment]. *)
Definition _generate_detection_insights_assessment (detected : bool) (confidence : float)
    : str :=
  if negb detected then lit "No significant steganographic indicators detected"
  else
    let key :=
      if (0.9 <? confidence)%float then lit "critical"
      else if (0.8 <? confidence)%float then lit "high"
      else lit "medium" in
    match item key risk_levels with
    | Some text => text
    | None => WARNING ++ lit " LOW RISK: Standard monitoring sufficient"
    end.

Definition detect_steganography (detection_score : float) : Detection :=
  let stego_detected := (0.6 <? detection_score)%float in
  let confidence :=
    if stego_detected then detection_score else (detection_score * 0.5)%float in
  let '(recommended_action, risk_level) :=
    if stego_detected then
      if (0.9 <? confidence)%float then (lit "immediate_investigation", lit "critical")
      else if (0.8 <? confidence)%float then (lit "detailed_analysis", lit "high")
      else (lit "monitor", lit "medium")
    else (lit "no_action", lit "low") in
  mkDetection stego_detected recommended_action risk_level
    (_generate_detection_insights_assessment stego_detected confidence).

End AIAnalyzer.
Import AIAnalyzer.

(** ** The text routes ([src/backend/routes/text_steg.py])

    A handler is modelled from the value that [request.get_json()] returned
    on: [None] is Python's [None], returned for the JSON body [null], and
    [Some items] is a JSON object given by its items, whose values are
    strings. When [request.get_json()] itself raises (the library does for a
    body that is absent, empty or not JSON), there is no such value: the call
    stands inside the [try], so the handler answers 500 with the text of that
    exception. [embed_text_request] and [extract_text_request] are the
    handlers from the call of [request.get_json()] on. A response is the
    JSON body and the status code. *)

Module TextStegRoutes.

Definition json_object := list (str * str).

(** The text of an [error] entry: a text as such (a fixed message of the
    handler, or the text of an exception of the library), or [str(e)] of an
    exception [e] that the program raised. *)
Inductive error_text : Type :=
  | Message (text : str)
  | OfException (e : exn).

Inductive json_body : Type :=
  | ErrorBody (error : error_text)
  | EmbedBody (stego_text method_used message : str)
  | ExtractBody (extracted_message method_used : str) (confidence : float) (message : str).

Definition response : Type := json_body * nat.

(** [key in data] and [data.get(key, default)] *)
Definition has_key (key : str) (data : json_object) : bool :=
  match item key data with Some _ => true | None => false end.

Definition get_default (key : str) (default : str) (data : json_object) : str :=
  match item key data with Some v => v | None => default end.

(** [not data]: [None], or an object without items. *)
Definition no_data (data : option json_object) : bool :=
  match data with None => true | Some [] => true | Some _ => false end.

(** Lines 26-55: [POST /embed] *)
Definition embed_text (data : option json_object) : response :=
  match data with
  | Some data' =>
      if no_data data || negb (has_key (lit "cover_text") data') ||
         negb (has_key (lit "secret_message") data')
      then (ErrorBody (Message (lit "Missing required fields: cover_text, secret_message")),
            400)
      else
        let cover_text := get_default (lit "cover_text") [] data' in
        let secret_message := get_default (lit "secret_message") [] data' in
        let method := get_default (lit "method") (lit "auto") data' in
        let method :=
          if str_eqb method (lit "auto")
          then recommended_method (analyze_text_for_steganography cover_text)
          else method in
        match embed_message cover_text secret_message method with
        | Ok stego_text =>
            (EmbedBody stego_text method (lit "Text embedded successfully"), 200)
        | Raise e => (ErrorBody (OfException e), 500)
        end
  | None =>
      (ErrorBody (Message (lit "Missing required fields: cover_text, secret_message")), 400)
  end.

(** [extracted and len(extracted) > 0] *)
Definition found (extracted : str) : bool :=
  match extracted with [] => false | _ => true end.

(** Lines 91-103: [for m in methods], leaving at the first method whose
    extraction is not empty; an exception moves on to the next method. *)
Fixpoint try_methods (stego_text : str) (methods : list str) : option response :=
  match methods with
  | [] => None
  | m :: methods' =>
      match extract_message stego_text m with
      | Ok extracted =>
          if found extracted
          then Some (ExtractBody extracted m 0.7%float
                       (lit "Message extracted successfully using fallback method"), 200)
          else try_methods stego_text methods'
      | Raise _ => try_methods stego_text methods'
      end
  end.

(** Lines 57-140: [POST /extract]. The analysis of lines 71-73 does not
    raise on a string, so the handler of line 107 is not entered. *)
Definition extract_text (data : option json_object) : response :=
  match data with
  | Some data' =>
      if no_data data || negb (has_key (lit "stego_text") data')
      then (ErrorBody (Message (lit "Missing required field: stego_text")), 400)
      else
        let stego_text := get_default (lit "stego_text") [] data' in
        let method := get_default (lit "method") (lit "auto") data' in
        if str_eqb method (lit "auto") then
          let analysis := analyze_text_for_steganography stego_text in
          let predicted_method := recommended_method analysis in
          let confidence := confidence analysis in
          let predicted :=
            match extract_message stego_text predicted_method with
            | Ok extracted =>
                if found extracted
                then Some (ExtractBody extracted predicted_method confidence
                             (lit "Message extracted successfully using AI prediction"), 200)
                else None
            | Raise _ => None
            end in
          match predicted with
          | Some r => r
          | None =>
              match try_methods stego_text
                      [lit "whitespace"; lit "synonym"; lit "binary"] with
              | Some r => r
              | None =>
                  (ErrorBody (Message
                     (lit "Could not extract message from text using any method")), 400)
              end
          end
        else
          match extract_message stego_text method with
          | Ok extracted =>
              if found extracted
              then (ExtractBody extracted method 0.9%float
                      (lit "Message extracted successfully"), 200)
              else (ErrorBody (Message (lit "Could not extract message from text")), 400)
          | Raise e => (ErrorBody (OfException e), 500)
          end
  | None => (ErrorBody (Message (lit "Missing required field: stego_text")), 400)
  end.

(** What [request.get_json()] does: it returns the parsed value, or it
    raises an exception of the library, of which [text] is [str(e)]. *)
Inductive get_json : Type :=
  | Returns (data : option json_object)
  | Raises (text : str).

(** Lines 26-55 and 57-140 from [data = request.get_json()] on: what that
    call raises is caught by the handler's [except Exception]. *)
Definition embed_text_request (r : get_json) : response :=
  match r with
  | Returns data => embed_text data
  | Raises text => (ErrorBody (Message text), 500)
  end.

Definition extract_text_request (r : get_json) : response :=
  match r with
  | Returns data => extract_text data
  | Raises text => (ErrorBody (Message text), 500)
  end.

End TextStegRoutes.
Import TextStegRoutes.

(** * Vocabulary of the statements and proofs *)

(** ** Bytes and payloads *)

(** Every code point below 256 is one of the 256 listed ones, so a property
    of bytes can be checked by running through them. *)
Definition all_bytes : list N := map N.of_nat (seq 0 256).

(** The first zero byte of a byte string, if any, ends what is decoded. *)
Fixpoint truncate_at_nul (b : str) : str :=
  match b with
  | [] => []
  | c :: b' => if (c =? 0)%N then [] else c :: truncate_at_nul b'
  end.

(** A payload of bytes none of which is zero. *)
Definition payload_ok (payload : str) : Prop :=
  Forall (fun c => (0 < c < 256)%N) payload.

(** A character of U+0000..U+00FF that is not white space. *)
Definition word_char (c : char) : bool := (c <? 256)%N && negb (isspace c).

(** ** Method names *)

(** The three method names [embed_message] and [extract_message] accept. *)
Definition supported (method : str) : Prop :=
  method = lit "whitespace" \/ method = lit "synonym" \/ method = lit "binary".

(** ** Whitespace method *)

(** The two characters the whitespace extractor treats as separators. *)
Definition is_sep (c : char) : bool := (c =? SPACE)%N || (c =? TAB)%N.

Definition nosep (w : str) : Prop := forallb (fun c => negb (is_sep c)) w = true.

Definition nospace (w : str) : Prop := forallb (fun c => negb (isspace c)) w = true.

(** The bit each separator character stands for, in text order. *)
Definition sep_bits (s : str) : bits :=
  flat_map (fun c => if (c =? TAB)%N then [true]
                     else if (c =? SPACE)%N then [false] else []) s.

(** The separator written after word [i]. *)
Definition sep_char (binary_message : bits) (i : nat) : char :=
  if nth i binary_message false then TAB else SPACE.

(** What one round of the joining loop appends. *)
Definition piece (words : list str) (binary_message : bits) (i : nat) : list str :=
  nth i words [] ::
  (if (Z.of_nat i <? len words - 1)%Z then [[sep_char binary_message i]] else []).

(** Words number [i], [i+1], ... joined by their separators. *)
Fixpoint weave (binary_message : bits) (i : nat) (words : list str) : str :=
  match words with
  | [] => []
  | w :: ws =>
      match ws with
      | [] => w
      | _ => w ++ [sep_char binary_message i] ++ weave binary_message (S i) ws
      end
  end.

(** Splitting a text at every space and every tab: the fields between the
    separators, in order. *)
Fixpoint fields_from (cur : str) (s : str) : list str :=
  match s with
  | [] => [cur]
  | c :: s' => if is_sep c then cur :: fields_from [] s' else fields_from (cur ++ [c]) s'
  end.

Definition split_on_space_tab (s : str) : list str := fields_from [] s.

(** The parts list once the last word is flushed (lines 122-123). *)
Definition finish (st : list str * str) : list str :=
  let '(parts, current_part) := st in
  match current_part with [] => parts | _ => parts ++ [current_part] end.

(** The bit one part contributes (lines 127-130). *)
Definition part_bit (part : str) : bits :=
  if str_eqb part [TAB] then [true] else if str_eqb part [SPACE] then [false] else [].

(** ** Words as bit carriers (synonym and capitalisation methods)

    Both embedders walk the words with a cursor into the bit string: a word
    that is [eligible] takes the next bit [b], if one is left, and is replaced
    by [f b word]; every other word is kept. *)

(** The words written for [words] when the bits [rem] are still to embed. *)
Fixpoint enc (eligible : str -> bool) (f : bool -> str -> str)
    (words : list str) (rem : bits) : list str :=
  match words with
  | [] => []
  | w :: ws =>
      if eligible w then
        match rem with
        | b :: rem' => f b w :: enc eligible f ws rem'
        | [] => w :: enc eligible f ws []
        end
      else w :: enc eligible f ws rem
  end.

(** The bits still to embed after [words]. *)
Fixpoint rest_bits (eligible : str -> bool) (words : list str) (rem : bits) : bits :=
  match words with
  | [] => rem
  | w :: ws => if eligible w then rest_bits eligible ws (tl rem) else rest_bits eligible ws rem
  end.

(** The dummy word for a bit. *)
Definition dummy (one zero : str) (b : bool) : str := if b then one else zero.

(** ** Capitalisation method *)

(** Lines 341-356: the word written for [word] when it carries [bit]. *)
Definition binary_word (bit : bool) (word : str) : str :=
  let clean_word := filter isalpha word in
  let punctuation := filter (fun c => negb (isalpha c)) word in
  let processed_word :=
    if bit then
      match clean_word with
      | [] => clean_word
      | c :: rest =>
          if 1 <? length clean_word then upper [c] ++ lower rest else upper clean_word
      end
    else lower clean_word in
  processed_word ++ punctuation.

(** Lines 391-396: the bit read from a word. *)
Definition bit_of_word (word : str) : bool :=
  match filter isalpha word with
  | c :: _ => isupper c
  | [] => false
  end.

(** The alphabetic characters of U+0000..U+00FF that have no case: the
    ordinal indicators. [upper] leaves them as they are, and they are not
    upper case. *)
Definition caseless (c : char) : bool := (c =? 0xAA)%N || (c =? 0xBA)%N.

(** The first alphabetic character of the word exists and has case. *)
Definition carries_bit (w : str) : bool :=
  match filter isalpha w with
  | c :: _ => negb (caseless c)
  | [] => false
  end.

(** ** Synonym method *)

(** [clean_word in synonyms] *)
Definition eligible_word (word : str) : bool :=
  match lookup (clean word) synonyms with Some _ => true | None => false end.

(** Lines 207-213: the alternative chosen for a bit. *)
Definition pick (bit : bool) (options : list str) : str :=
  if bit then (if 1 <? length options then nth 1 options [] else nth 0 options [])
  else nth 0 options [].

(** The word written for a function word that carries [bit]. *)
Definition synonym_word (bit : bool) (word : str) : str :=
  match lookup (clean word) synonyms with
  | Some options =>
      let synonym := pick bit options in
      let synonym :=
        if match word with c :: _ => isupper c | [] => false end
        then capitalize synonym else synonym in
      synonym ++ filter (fun c => mem c PUNCT) word
  | None => word
  end.

(** The bits a word contributes on extraction. *)
Definition read_word (word : str) : bits :=
  match word_bit word with Some b => [b] | None => [] end.

(** The function words both of whose written alternatives are read back as
    the bit they stand for: all keys except these three. The extractor reads
    "were" as alternative 1 of "was" and "should" as alternative 1 of
    "would"; alternative 1 of "should" is two words; alternative 1 of "can"
    is alternative 0 of "could". *)
Definition reliable_key (k : str) : bool :=
  negb (str_eqb k (lit "were") || str_eqb k (lit "should") || str_eqb k (lit "can")).

(** A cover word the synonym method can handle: a function word with a
    reliable key, or a word that the extractor does not read as a bit. *)
Definition synonym_word_ok (w : str) : bool :=
  match lookup (clean w) synonyms with
  | Some _ => reliable_key (clean w)
  | None => match word_bit w with None => true | Some _ => false end
  end.

(** Neither end of [s] is a punctuation character. *)
Definition ends_clean (s : str) : bool :=
  match s with c :: _ => negb (mem c PUNCT) | [] => false end &&
  match rev s with c :: _ => negb (mem c PUNCT) | [] => false end.

(** What the round trip needs of one table entry. *)
Definition entry_ok (e : str * list str) : bool :=
  implb (reliable_key (fst e))
    (forallb (fun b =>
       let syn := pick b (snd e) in
       ends_clean syn &&
       str_eqb (lower syn) syn && str_eqb (lower (capitalize syn)) syn &&
       forallb (fun c => negb (isspace c)) syn &&
       forallb (fun c => negb (isspace c)) (capitalize syn) &&
       negb (str_eqb (capitalize syn) []) &&
       match clean_bit syn with Some b' => Bool.eqb b' b | None => false end)
     [false; true]).

(** ** Sample texts *)

(** A text of 250 four-letter words, 1250 characters. *)
Definition long_plain_text : str := concat (repeat (lit "abcd ") 250).

(** A cover with sixteen function words and six other words. *)
Definition farm_cover : str :=
  lit "The cat is and the dog was, but the bird has or the fish did and the cow will be the end.".

(** A cover with sixteen function words after the word this, which is no
    function word but alternative 1 of one. *)
Definition this_cover : str :=
  lit "this the the the the the the the the the the the the the the the the".

(** ** More vocabulary: what extraction can return, and tab-free text *)

(** A character that a secret message cannot carry: NUL, or one that does
    not fit in a byte. *)
Definition not_a_byte (c : char) : Prop := c = 0%N \/ (256 <= c)%N.

(** No tab character. *)
Definition notab (s : str) : Prop := forallb (fun c => negb (c =? TAB)%N) s = true.

(** A character of U+0000..U+00FF other than the tab. *)
Definition plain_char (c : char) : bool := (c <? 256)%N && negb (c =? TAB)%N.

(** No alternative 0 or 1 of the table, capitalised or not, has a tab. *)
Definition table_notab : bool :=
  forallb (fun e : str * list str =>
    forallb (fun b =>
      forallb (fun c => negb (c =? TAB)%N) (pick b (snd e)) &&
      forallb (fun c => negb (c =? TAB)%N) (capitalize (pick b (snd e))))
    [false; true]) synonyms.

(** Lines 36-38: the number of function words of a text. *)
Definition function_word_count (text : str) : nat :=
  length (filter (fun word => existsb (str_eqb (strip PUNCT (lower word))) synonym_words)
            (split text)).

(** ** The program over any Unicode tables

    [str.lower], [str.isalpha] and [str.isupper] come from Python's Unicode
    database, which is no part of the repository; the tables of [PyStr] give
    them on U+0000..U+00FF. For statements about every text, the functions
    that call them are given here once more with the three library functions
    as parameters: [py_lower] is [s.lower()] on strings, [py_isalpha] and
    [py_isupper] are [c.isalpha()] and [c.isupper()] on characters. Nothing
    else changes; at the tables of [PyStr] they are the functions above
    ([analyze_text_for_steganography_with_tables],
    [extract_message_with_tables]). *)

Section UnicodeTables.

Variable py_lower : str -> str.
Variables py_isalpha py_isupper : char -> bool.

(** [len(set(word.lower() for word in words))] *)
Definition unique_lower_with (words : list str) : nat :=
  length (nodup (list_eq_dec N.eq_dec) (map py_lower words)).

(** [ai_analyzer.py], lines 201-216 *)
Definition _calculate_text_complexity_with (text : str) : float :=
  let words := split text in
  match words with
  | [] => 0%float
  | _ =>
      let avg_length :=
        (float_of_nat (list_sum (map (@length char) words)) / float_of_nat (length words))%float in
      let unique_words := unique_lower_with words in
      let diversity := (float_of_nat unique_words / float_of_nat (length words))%float in
      let length_score := py_min (avg_length / 10)%float 1%float in
      let diversity_score := diversity in
      ((length_score + diversity_score) / 2)%float
  end.

(** [ai_analyzer.py], lines 30-93 *)
Definition analyze_text_for_steganography_with (text : str) : AnalysisResult :=
  let words := split text in
  let word_count := length words in
  let char_count := length text in
  let synonym_count :=
    length (filter (fun word => existsb (str_eqb (strip PUNCT (py_lower word))) synonym_words)
              words) in
  let complexity_score := _calculate_text_complexity_with text in
  let '(recommended_method, confidence) :=
    choose_method word_count char_count synonym_count complexity_score in
  let estimated_capacity :=
    if str_eqb recommended_method (lit "whitespace") then word_count / 3
    else if str_eqb recommended_method (lit "synonym")
    then Nat.min synonym_count (word_count / 4)
    else word_count / 5 in
  mkAnalysis word_count char_count synonym_count recommended_method confidence
    estimated_capacity.

(** [text_steganography.py], lines 278-296 *)
Definition word_bit_with (word : str) : option bool :=
  clean_bit (strip PUNCT (py_lower word)).

Definition synonym_bit_step_with (binary_message : bits) (word : str) : bits :=
  match word_bit_with word with
  | Some b => binary_message ++ [b]
  | None => binary_message
  end.

Definition synonym_bits_with (stego_text : str) : bits :=
  fold_left synonym_bit_step_with (split stego_text) [].

Definition _extract_synonym_with (stego_text : str) : str :=
  decode_binary (synonym_bits_with stego_text).

(** [text_steganography.py], lines 390-396 *)
Definition binary_bit_step_with (binary_message : bits) (word : str) : bits :=
  let clean_word := filter py_isalpha word in
  match clean_word with
  | c :: _ => if py_isupper c then binary_message ++ [true] else binary_message ++ [false]
  | [] => binary_message ++ [false]
  end.

Definition binary_bits_with (stego_text : str) : bits :=
  fold_left binary_bit_step_with (split stego_text) [].

Definition _extract_binary_with (stego_text : str) : str :=
  decode_binary (binary_bits_with stego_text).

(** [text_steganography.py], lines 48-55 *)
Definition extract_message_with (stego_text method : str) : result str :=
  if str_eqb method (lit "whitespace") then Ok (_extract_whitespace stego_text)
  else if str_eqb method (lit "synonym") then Ok (_extract_synonym_with stego_text)
  else if str_eqb method (lit "binary") then Ok (_extract_binary_with stego_text)
  else Raise (unsupported method).

(** The bit string [extract_message_with] decodes, per method. *)
Definition recovered_bits_with (stego_text method : str) : bits :=
  if str_eqb method (lit "whitespace") then whitespace_bits stego_text
  else if str_eqb method (lit "synonym") then synonym_bits_with stego_text
  else binary_bits_with stego_text.

End UnicodeTables.

(** *** Tables that also know the Russian alphabet

    The tables of [PyStr], and Python's values on U+0410..U+044F: the
    capitals U+0410..U+042F are letters and upper case, with lower-case
    images 32 places on; U+0430..U+044F are letters and lower case. *)

Definition russian_isalpha (c : char) : bool := in_range 0x410 0x44F c || isalpha c.

Definition russian_isupper (c : char) : bool := in_range 0x410 0x42F c || isupper c.

Definition russian_lower (s : str) : str :=
  map (fun c => if in_range 0x410 0x42F c then (c + 32)%N else lower_char c) s.

(** Eight words, the first with a capital: U+041F U+0440 U+0438 U+0432 U+0435
    U+0442, then seven times the same word in lower case. *)
Definition russian_greeting : str :=
  join [SPACE]
    ([0x41F; 0x440; 0x438; 0x432; 0x435; 0x442]%N ::
     repeat [0x43F; 0x440; 0x438; 0x432; 0x435; 0x442]%N 7).

(** The 125 seven-letter words U+0441 U+043B U+043E U+0432, then three
    letters out of U+0430..U+0434. *)
Definition russian_words : list str :=
  map (fun k => [0x441; 0x43B; 0x43E; 0x432]%N ++
                [(0x430 + N.of_nat (k / 25))%N; (0x430 + N.of_nat ((k / 5) mod 5))%N;
                 (0x430 + N.of_nat (k mod 5))%N])
      (seq 0 125).

(** Those 125 words, and then the same 125 in capitals: 250 words, 1999
    characters, 125 words after lower-casing. *)
Definition russian_text : str :=
  join [SPACE] (russian_words ++ map (map (fun c => (c - 32)%N)) russian_words).

(** * Properties *)

(** ** Strings *)

Lemma str_eqb_eq (a b : str) : str_eqb a b = true <-> a = b.
Proof.
  revert b. induction a as [|x a IH]; intros [|y b]; cbn; try (split; congruence).
  rewrite andb_true_iff, N.eqb_eq, IH. split; [intros []|intros [=]]; now subst.
Qed.

Lemma str_eqb_refl (a : str) : str_eqb a a = true.
Proof. now apply str_eqb_eq. Qed.

Lemma str_eqb_neq (a b : str) : str_eqb a b = false <-> a <> b.
Proof.
  rewrite <- str_eqb_eq. destruct (str_eqb a b); split; congruence.
Qed.

Lemma byte_in_all_bytes (c : N) : (c < 256)%N -> In c all_bytes.
Proof.
  intros H. unfold all_bytes.
  rewrite <- (N2Nat.id c). apply in_map. apply in_seq. lia.
Qed.

Lemma forall_bytes (P : N -> bool) :
  forallb P all_bytes = true -> forall c, (c < 256)%N -> P c = true.
Proof.
  intros H c Hc. rewrite forallb_forall in H. apply H, byte_in_all_bytes, Hc.
Qed.

(** ** The bit codec *)

Lemma bits_eqb_eq (a b : bits) : bits_eqb a b = true <-> a = b.
Proof.
  revert b. induction a as [|x a IH]; intros [|y b]; cbn; try (split; congruence).
  rewrite andb_true_iff, eqb_true_iff, IH. split; [intros []|intros [=]]; now subst.
Qed.

Lemma bits_eqb_neq (a b : bits) : bits_eqb a b = false <-> a <> b.
Proof.
  rewrite <- bits_eqb_eq. destruct (bits_eqb a b); split; congruence.
Qed.

Lemma format_08b_byte (c : N) :
  (c < 256)%N ->
  length (format_08b c) = 8 /\ int2 (format_08b c) = c /\
  (format_08b c = END_MARKER <-> c = 0%N).
Proof.
  intros Hc.
  pose (P := fun c : N =>
    (length (format_08b c) =? 8) && (int2 (format_08b c) =? c)%N &&
    Bool.eqb (bits_eqb (format_08b c) END_MARKER) (c =? 0)%N).
  assert (HP : P c = true) by (apply forall_bytes; [vm_compute; reflexivity | exact Hc]).
  unfold P in HP. apply andb_prop in HP as [HP H3]. apply andb_prop in HP as [H1 H2].
  apply Nat.eqb_eq in H1. apply N.eqb_eq in H2. apply eqb_prop in H3.
  repeat split; auto.
  - intros E. apply bits_eqb_eq in E. rewrite E in H3. symmetry in H3. now apply N.eqb_eq.
  - intros E. apply N.eqb_eq in E. rewrite E in H3. now apply bits_eqb_eq.
Qed.

Lemma int2_byte (g : bits) : length g = 8 -> (int2 g < 256)%N.
Proof.
  intros H.
  do 8 (destruct g as [|[] g]; [discriminate H|..]);
    (destruct g; [vm_compute; reflexivity | discriminate H]).
Qed.

Lemma slice_length {A} (s : list A) (i : nat) :
  i + 8 <= length s -> length (slice s i (i + 8)) = 8.
Proof.
  intros H. unfold slice. rewrite length_firstn, length_skipn. lia.
Qed.

Lemma filter_lt_seq (q n : nat) :
  filter (fun k => k <? q) (seq 0 n) = seq 0 (Nat.min q n).
Proof.
  induction n as [|n IH]; [now rewrite Nat.min_0_r|].
  rewrite seq_S, filter_app, IH. simpl.
  destruct (Nat.ltb_spec n q).
  - rewrite !Nat.min_r by lia. now rewrite seq_S.
  - rewrite !Nat.min_l by lia. now rewrite app_nil_r.
Qed.

Lemma complete_groups (n : nat) :
  filter (fun k => 8 * k + 8 <=? n) (seq 0 ((n + 7) / 8)) = seq 0 (n / 8).
Proof.
  rewrite (filter_ext (fun k => 8 * k + 8 <=? n) (fun k => k <? n / 8)).
  - rewrite filter_lt_seq. f_equal.
    apply Nat.min_l. apply Nat.Div0.div_le_mono. lia.
  - intros k. destruct (Nat.leb_spec (8 * k + 8) n); destruct (Nat.ltb_spec k (n / 8));
      try reflexivity; exfalso.
    + assert (S k <= n / 8) by (apply Nat.div_le_lower_bound; lia). lia.
    + pose proof (Nat.Div0.mul_div_le n 8). lia.
Qed.

(** The loop over the indices and the groups of the specification. *)
Lemma decode_loop_groups (b : bits) (m k0 : nat) (message : str) :
  decode_loop b (map (fun k => 8 * k) (seq k0 m)) message =
  message ++ map int2 (take_until_marker
    (map (fun k => slice b (8 * k) (8 * k + 8))
       (filter (fun k => 8 * k + 8 <=? length b) (seq k0 m)))).
Proof.
  revert k0 message.
  induction m as [|m IH]; intros k0 message; cbn [seq map decode_loop filter].
  - cbn. now rewrite app_nil_r.
  - destruct (Nat.leb_spec (8 * k0 + 8) (length b)) as [Hle|Hgt].
    + cbn [map take_until_marker].
      destruct (bits_eqb (slice b (8 * k0) (8 * k0 + 8)) END_MARKER).
      * now rewrite app_nil_r.
      * pose proof (int2_byte _ (slice_length b (8 * k0) Hle)) as Hb.
        unfold chr. replace (_ <? 0x110000)%N with true by (symmetry; apply N.ltb_lt; lia).
        rewrite IH. cbn [map]. now rewrite <- app_assoc.
    + apply IH.
Qed.

Lemma decode_binary_fromBits (b : bits) : decode_binary b = fromBits_spec b.
Proof.
  unfold decode_binary, range8, fromBits_spec, groups.
  rewrite decode_loop_groups, complete_groups. reflexivity.
Qed.

Lemma groups_app (g rest : bits) :
  length g = 8 -> groups (g ++ rest) = g :: groups rest.
Proof.
  intros Hg. unfold groups.
  rewrite length_app, Hg.
  replace ((8 + length rest) / 8) with (S (length rest / 8)).
  2:{ replace (8 + length rest) with (1 * 8 + length rest) by lia.
      rewrite Nat.div_add_l by lia. lia. }
  cbn [seq map]. f_equal.
  - unfold slice. rewrite Nat.mul_0_r. cbn [skipn].
    replace (0 + 8 - 0) with (length g + 0) by lia.
    rewrite firstn_app_2. cbn. apply app_nil_r.
  - rewrite <- seq_shift, map_map. apply map_ext. intros k.
    unfold slice. rewrite skipn_app, Hg.
    rewrite (skipn_all2 g) by lia. cbn [app].
    replace (8 * S k - 8) with (8 * k) by lia.
    replace (8 * S k + 8 - 8 * S k) with (8 * k + 8 - 8 * k) by lia.
    reflexivity.
Qed.

Lemma decode_binary_cons (g rest : bits) :
  length g = 8 ->
  decode_binary (g ++ rest) =
  if bits_eqb g END_MARKER then [] else int2 g :: decode_binary rest.
Proof.
  intros Hg. rewrite !decode_binary_fromBits. unfold fromBits_spec.
  rewrite groups_app by exact Hg. cbn [take_until_marker].
  destruct (bits_eqb g END_MARKER); reflexivity.
Qed.

(** Without a terminator every complete group is decoded. *)
Lemma decode_binary_no_terminator (b : bits) :
  no_terminator b -> decode_binary b = map int2 (groups b).
Proof.
  rewrite decode_binary_fromBits. unfold fromBits_spec, no_terminator.
  intros H. f_equal. induction H as [|g gs Hg _ IH]; cbn [take_until_marker]; [reflexivity|].
  apply bits_eqb_neq in Hg. rewrite Hg. now f_equal.
Qed.

(** An incomplete trailing group does not change the result. *)
Lemma decode_binary_trailing (b tail : bits) :
  Nat.modulo (length b) 8 = 0 -> length tail < 8 ->
  decode_binary (b ++ tail) = decode_binary b.
Proof.
  intros Hb Ht. rewrite !decode_binary_fromBits. unfold fromBits_spec, groups.
  rewrite length_app.
  assert (Hq : (length b + length tail) / 8 = length b / 8).
  { pose proof (Nat.div_mod_eq (length b) 8) as E. rewrite Hb in E.
    rewrite E at 1. rewrite Nat.add_0_r, Nat.mul_comm, Nat.div_add_l by lia.
    rewrite (Nat.div_small (length tail)) by lia. lia. }
  rewrite Hq. do 2 f_equal. apply map_ext_in. intros k Hk. apply in_seq in Hk.
  pose proof (Nat.Div0.mul_div_le (length b) 8).
  unfold slice. rewrite skipn_app.
  replace (8 * k - length b) with 0 by lia. cbn [skipn].
  rewrite firstn_app, length_skipn.
  replace (8 * k + 8 - 8 * k - (length b - 8 * k)) with 0 by lia.
  cbn [firstn]. apply app_nil_r.
Qed.

Lemma decode_to_binary_app (b : str) (extra : bits) :
  Forall (fun c => (c < 256)%N) b ->
  decode_binary (to_binary b ++ extra) = truncate_at_nul b.
Proof.
  unfold to_binary. intros Hb.
  induction Hb as [|c b Hc _ IH]; cbn [flat_map truncate_at_nul].
  - rewrite app_nil_l. rewrite decode_binary_cons by reflexivity.
    reflexivity.
  - destruct (format_08b_byte c Hc) as (Hlen & Hint & Hz).
    rewrite <- !app_assoc. rewrite decode_binary_cons by exact Hlen.
    rewrite Hint. destruct (N.eqb_spec c 0) as [E|E].
    + apply Hz in E. apply bits_eqb_eq in E. now rewrite E.
    + assert (E' : bits_eqb (format_08b c) END_MARKER = false).
      { apply bits_eqb_neq. intros F. now apply Hz in F. }
      rewrite E'. f_equal. rewrite app_assoc. exact IH.
Qed.

Lemma truncate_at_nul_free (b : str) : ~ In 0%N b -> truncate_at_nul b = b.
Proof.
  induction b as [|c b IH]; cbn; [reflexivity|]. intros H.
  destruct (N.eqb_spec c 0) as [E|E]; [exfalso; apply H; now left|].
  f_equal. apply IH. intros F. apply H. now right.
Qed.

Lemma truncate_at_nul_first (pre post : str) :
  ~ In 0%N pre -> truncate_at_nul (pre ++ 0%N :: post) = pre.
Proof.
  induction pre as [|c pre IH]; cbn; [reflexivity|]. intros H.
  destruct (N.eqb_spec c 0) as [E|E]; [exfalso; apply H; now left|].
  f_equal. apply IH. intros F. apply H. now right.
Qed.

Lemma payload_ok_bytes (payload : str) :
  payload_ok payload -> Forall (fun c => (c < 256)%N) payload /\ ~ In 0%N payload.
Proof.
  intros H. split.
  - eapply Forall_impl; [|exact H]. cbn. intros; lia.
  - intros F. unfold payload_ok in H. rewrite Forall_forall in H. apply H in F. lia.
Qed.

Lemma decode_payload (payload : str) (extra : bits) :
  payload_ok payload -> decode_binary (to_binary payload ++ extra) = payload.
Proof.
  intros H. apply payload_ok_bytes in H as [H1 H2].
  rewrite decode_to_binary_app by exact H1. now apply truncate_at_nul_free.
Qed.

(** The serialisation and the decoder on small inputs. *)
Example format_08b_A :
  format_08b 65 = [false; true; false; false; false; false; false; true].
Proof. reflexivity. Qed.

Example to_binary_A :
  to_binary (lit "A") =
  [false; true; false; false; false; false; false; true] ++ END_MARKER.
Proof. reflexivity. Qed.

Example decode_binary_partial :
  decode_binary [false; true; false; false; false; false; false; true; true; false; true] =
  lit "A".
Proof. reflexivity. Qed.

(** C5. The decoder shared by the three extractors does what the
    specification says of [fromBits]: it reads the complete 8-bit groups from
    left to right (a trailing incomplete group is not a group), stops at the
    first all-zero group and returns the bytes decoded before it, and returns
    every decoded byte when no group is all zero. *)
Theorem best_effort_decode (b : bits) : decode_binary b = fromBits_spec b.
Proof. apply decode_binary_fromBits. Qed.

(** C2. For a byte sequence [b], decoding its serialisation (8 bits per
    byte, most significant first, then the 8-zero-bit terminator) gives [b]
    when [b] has no zero byte, and otherwise the part of [b] before its first
    zero byte. *)
Theorem terminator_semantics (b : str) :
  Forall (fun c => (c < 256)%N) b ->
  decode_binary (to_binary b) = truncate_at_nul b /\
  (~ In 0%N b -> decode_binary (to_binary b) = b) /\
  (forall pre post, b = pre ++ 0%N :: post -> ~ In 0%N pre ->
     decode_binary (to_binary b) = pre).
Proof.
  intros Hb.
  assert (E : decode_binary (to_binary b) = truncate_at_nul b).
  { rewrite <- (app_nil_r (to_binary b)). now apply decode_to_binary_app. }
  rewrite E. split; [reflexivity|]. split.
  - apply truncate_at_nul_free.
  - intros pre post -> Hpre. now apply truncate_at_nul_first.
Qed.

Lemma terminator_semantics_witness :
  Forall (fun c => (c < 256)%N) [72; 0; 105]%N /\
  decode_binary (to_binary [72; 0; 105]%N) = [72%N].
Proof.
  assert (H : Forall (fun c => (c < 256)%N) [72; 0; 105]%N)
    by (repeat constructor).
  split; [exact H|].
  exact (proj1 (terminator_semantics _ H)).
Defined.

(** ** The whitespace method *)

Lemma is_sep_isspace (c : char) : is_sep c = true -> isspace c = true.
Proof.
  unfold is_sep. intros H. apply orb_prop in H as [H|H]; apply N.eqb_eq in H; now subst.
Qed.

Lemma nospace_nosep (w : str) : nospace w -> nosep w.
Proof.
  unfold nospace, nosep. rewrite !forallb_forall. intros H c Hc.
  specialize (H c Hc). destruct (is_sep c) eqn:E; [|reflexivity].
  apply is_sep_isspace in E. now rewrite E in H.
Qed.

Lemma nospace_app (a b : str) : nospace a -> nospace b -> nospace (a ++ b).
Proof.
  unfold nospace. intros Ha Hb. now rewrite forallb_app, Ha, Hb.
Qed.

Lemma split_from_words (s cur : str) :
  nospace cur -> Forall (fun w => w <> [] /\ nospace w) (split_from cur s).
Proof.
  revert cur. induction s as [|c s IH]; intros cur Hcur; cbn [split_from].
  - destruct cur; constructor; [split; [discriminate|exact Hcur]|constructor].
  - destruct (isspace c) eqn:Ec.
    + destruct cur.
      * now apply IH.
      * constructor; [split; [discriminate|exact Hcur]|now apply IH].
    + apply IH. apply nospace_app; [exact Hcur|]. unfold nospace. cbn. now rewrite Ec.
Qed.

Lemma split_words (s : str) : Forall (fun w => w <> [] /\ nospace w) (split s).
Proof. now apply split_from_words. Qed.

Lemma split_nosep (s : str) : Forall nosep (split s).
Proof.
  eapply Forall_impl; [|apply split_words]. intros w [_ H]. now apply nospace_nosep.
Qed.

Lemma len_app {A} (a b : list A) : len (a ++ b) = (len a + len b)%Z.
Proof. unfold len. rewrite length_app. lia. Qed.

Lemma len_nonneg {A} (a : list A) : (0 <= len a)%Z.
Proof. unfold len. lia. Qed.

(** The extension loop: it returns, keeps the words of the cover in front,
    appends only copies of them, and ends with enough gaps. *)
Lemma extend_words_spec (cover_words : list str) (binary_message : bits) (fuel : nat) :
  cover_words <> [] ->
  forall words,
  (exists extra, words = cover_words ++ extra /\ Forall (fun w => In w cover_words) extra) ->
  (len binary_message - (len words - 1) <= Z.of_nat fuel)%Z ->
  exists ws,
    extend_words fuel cover_words binary_message words = Ok ws /\
    (exists extra, ws = cover_words ++ extra /\ Forall (fun w => In w cover_words) extra) /\
    (len binary_message <= len ws - 1)%Z.
Proof.
  intros Hne. induction fuel as [|fuel IH]; intros words Hinv Hfuel; cbn [extend_words].
  - exists words. repeat split; [exact Hinv|lia].
  - destruct (Z.ltb_spec (len words - 1) (len binary_message)) as [Hlt|Hge].
    + assert (Hn : (0 < len cover_words)%Z).
      { unfold len. destruct cover_words; [contradiction|cbn; lia]. }
      replace (len cover_words =? 0)%Z with false by (symmetry; apply Z.eqb_neq; lia).
      destruct Hinv as (extra & -> & Hextra).
      pose proof (Z.mod_pos_bound (len (cover_words ++ extra)) (len cover_words) Hn) as Hm.
      set (i := Z.to_nat (len (cover_words ++ extra) mod len cover_words)).
      assert (Hi : i < length cover_words) by (unfold len in *; lia).
      rewrite nth_error_app1 by exact Hi.
      destruct (nth_error cover_words i) as [w|] eqn:Ew.
      2:{ apply nth_error_None in Ew. lia. }
      apply nth_error_In in Ew.
      apply IH.
      * exists (extra ++ [w]). split; [now rewrite app_assoc|].
        apply Forall_app. split; [exact Hextra|now constructor].
      * rewrite len_app. unfold len at 3. cbn [length]. lia.
    + exists words. repeat split; [exact Hinv|lia].
Qed.

Lemma fold_stego_step (words : list str) (binary_message : bits)
    (l : list nat) (acc : list str) :
  fold_left (stego_step words binary_message) l acc =
  acc ++ flat_map (piece words binary_message) l.
Proof.
  revert acc. induction l as [|i l IH]; intros acc; cbn [fold_left flat_map].
  - now rewrite app_nil_r.
  - rewrite IH. unfold stego_step, piece.
    destruct (Z.ltb_spec (Z.of_nat i) (len words - 1)).
    + destruct (Z.ltb_spec (Z.of_nat i) (len binary_message)) as [Hi|Hi].
      * unfold sep_char. destruct (nth i binary_message false);
          cbn zeta; rewrite <- !app_assoc; reflexivity.
      * unfold sep_char.
        rewrite (nth_overflow binary_message) by (unfold len in Hi; lia).
        cbn zeta. now rewrite <- !app_assoc.
    + cbn zeta. now rewrite <- !app_assoc.
Qed.

Lemma concat_pieces (binary_message : bits) (words pre : list str) :
  concat (flat_map (piece (pre ++ words) binary_message)
            (seq (length pre) (length words))) =
  weave binary_message (length pre) words.
Proof.
  revert pre. induction words as [|w ws IH]; intros pre; [reflexivity|].
  cbn [length seq flat_map weave]. rewrite concat_app.
  replace (pre ++ w :: ws) with ((pre ++ [w]) ++ ws) by now rewrite <- app_assoc.
  pose proof (IH (pre ++ [w])) as IH'.
  rewrite length_app in IH'. cbn [length] in IH'. rewrite Nat.add_1_r in IH'.
  rewrite IH'.
  unfold piece at 1. rewrite <- app_assoc. cbn [app]. rewrite nth_middle.
  rewrite len_app. unfold len. cbn [length].
  destruct ws as [|w' ws]; cbn [length].
  - replace (_ <? _)%Z with false by (symmetry; apply Z.ltb_ge; lia).
    cbn. now rewrite !app_nil_r.
  - replace (_ <? _)%Z with true by (symmetry; apply Z.ltb_lt; lia).
    cbn [concat app]. now rewrite <- app_assoc.
Qed.

(** What [_embed_whitespace] returns once the words are extended. *)
Lemma stego_text_weave (binary_message : bits) (words : list str) :
  concat (fold_left (stego_step words binary_message) (seq 0 (length words)) []) =
  weave binary_message 0 words.
Proof.
  rewrite fold_stego_step. cbn [app]. apply (concat_pieces binary_message words []).
Qed.

Lemma sep_bits_nosep (w : str) : nosep w -> sep_bits w = [].
Proof.
  unfold nosep, sep_bits. induction w as [|c w IH]; cbn [forallb flat_map]; [reflexivity|].
  intros H. apply andb_prop in H as [Hc Hw]. rewrite (IH Hw), app_nil_r.
  unfold is_sep in Hc. apply negb_true_iff, orb_false_elim in Hc as [H1 H2].
  now rewrite H1, H2.
Qed.

Lemma sep_bits_app (a b : str) : sep_bits (a ++ b) = sep_bits a ++ sep_bits b.
Proof. apply flat_map_app. Qed.

Lemma sep_bits_sep_char (binary_message : bits) (i : nat) :
  sep_bits [sep_char binary_message i] = [nth i binary_message false].
Proof. unfold sep_char. now destruct (nth i binary_message false). Qed.

Lemma sep_bits_weave (binary_message : bits) (words : list str) (i : nat) :
  Forall nosep words ->
  sep_bits (weave binary_message i words) =
  map (fun j => nth j binary_message false) (seq i (length words - 1)).
Proof.
  intros H. revert i. induction H as [|w ws Hw Hws IH]; intros i; [reflexivity|].
  cbn [weave]. destruct ws as [|w' ws'].
  - now apply sep_bits_nosep.
  - rewrite !sep_bits_app, sep_bits_sep_char, IH, (sep_bits_nosep _ Hw).
    cbn [length]. rewrite !Nat.sub_succ, !Nat.sub_0_r. reflexivity.
Qed.

Lemma fold_part_step (parts : list str) (acc : bits) :
  fold_left part_step parts acc = acc ++ flat_map part_bit parts.
Proof.
  revert acc. induction parts as [|p parts IH]; intros acc; cbn [fold_left flat_map].
  - now rewrite app_nil_r.
  - rewrite IH. unfold part_step, part_bit.
    destruct (str_eqb p [TAB]); [now rewrite <- app_assoc|].
    destruct (str_eqb p [SPACE]); [now rewrite <- app_assoc|reflexivity].
Qed.

Lemma part_bit_nosep (w : str) : nosep w -> part_bit w = [].
Proof.
  intros H. unfold part_bit.
  destruct (str_eqb w [TAB]) eqn:E1; [apply str_eqb_eq in E1; now subst|].
  destruct (str_eqb w [SPACE]) eqn:E2; [apply str_eqb_eq in E2; now subst|].
  reflexivity.
Qed.

Lemma nosep_snoc (w : str) (c : char) : nosep w -> is_sep c = false -> nosep (w ++ [c]).
Proof.
  unfold nosep. intros Hw Hc. rewrite forallb_app, Hw. cbn. now rewrite Hc.
Qed.

Lemma scan_bits (s : str) (parts : list str) (cur : str) :
  nosep cur ->
  flat_map part_bit (finish (fold_left scan_step s (parts, cur))) =
  flat_map part_bit parts ++ sep_bits s.
Proof.
  revert parts cur. induction s as [|c s IH]; intros parts cur Hcur; cbn [fold_left].
  - cbn [finish sep_bits flat_map]. rewrite app_nil_r. destruct cur; [reflexivity|].
    rewrite flat_map_app. cbn [flat_map]. rewrite (part_bit_nosep _ Hcur).
    now rewrite !app_nil_r.
  - unfold scan_step at 2. fold (is_sep c). destruct (is_sep c) eqn:Ec.
    + rewrite IH by reflexivity.
      assert (Hb : part_bit [c] ++ sep_bits s = sep_bits (c :: s)).
      { unfold is_sep in Ec. cbn [sep_bits flat_map]. f_equal.
        destruct (N.eqb_spec c TAB) as [->|Ht]; [reflexivity|].
        destruct (N.eqb_spec c SPACE) as [->|Hs]; [reflexivity|].
        discriminate Ec. }
      rewrite <- Hb. destruct cur.
      * rewrite flat_map_app. cbn [flat_map]. now rewrite app_nil_r, <- app_assoc.
      * rewrite !flat_map_app. cbn [flat_map]. rewrite (part_bit_nosep _ Hcur).
        now rewrite !app_nil_r, <- app_assoc.
    + rewrite IH by now apply nosep_snoc.
      f_equal. cbn [sep_bits flat_map]. unfold is_sep in Ec.
      apply orb_false_elim in Ec as [E1 E2]. now rewrite E1, E2.
Qed.

(** The whitespace extractor reads exactly the separator characters. *)
Lemma whitespace_bits_sep_bits (s : str) : whitespace_bits s = sep_bits s.
Proof.
  unfold whitespace_bits. rewrite fold_part_step. cbn [app].
  change (scan_parts s) with (finish (fold_left scan_step s ([], []))).
  now rewrite scan_bits.
Qed.

Lemma map_nth_seq_all (l : bits) :
  map (fun j => nth j l false) (seq 0 (length l)) = l.
Proof.
  induction l as [|b l IH]; [reflexivity|].
  cbn [length seq map nth]. f_equal. rewrite <- seq_shift, map_map. exact IH.
Qed.

Lemma map_nth_seq_beyond (l : bits) (k start : nat) :
  length l <= start -> map (fun j => nth j l false) (seq start k) = repeat false k.
Proof.
  revert start. induction k as [|k IH]; intros start H; [reflexivity|].
  cbn [seq map repeat]. rewrite nth_overflow by exact H. f_equal. apply IH. lia.
Qed.

Lemma map_nth_seq_pad (l : bits) (m : nat) :
  length l <= m ->
  map (fun j => nth j l false) (seq 0 m) = l ++ repeat false (m - length l).
Proof.
  intros H. replace m with (length l + (m - length l)) at 1 by lia.
  rewrite seq_app, map_app, map_nth_seq_all, map_nth_seq_beyond by lia. reflexivity.
Qed.

Lemma to_binary_length (secret_message : str) : 8 <= length (to_binary secret_message).
Proof. unfold to_binary. rewrite length_app. cbn. lia. Qed.

Lemma extended_nosep (cover_text : str) (extra : list str) :
  Forall (fun w => In w (split cover_text)) extra ->
  Forall nosep (split cover_text ++ extra).
Proof.
  intros H. pose proof (split_nosep cover_text) as Hs.
  apply Forall_app. split; [exact Hs|].
  rewrite Forall_forall in *. intros w Hw. apply Hs, H, Hw.
Qed.

(** What the whitespace embedder returns on a cover with at least one word:
    the words of the cover, then copies of them, woven with the separators
    that spell the message. *)
Lemma _embed_whitespace_returns (cover_text secret_message : str) :
  split cover_text <> [] ->
  exists extra,
    Forall (fun w => In w (split cover_text)) extra /\
    length (to_binary secret_message) <= length (split cover_text ++ extra) - 1 /\
    _embed_whitespace cover_text secret_message =
    Ok (weave (to_binary secret_message) 0 (split cover_text ++ extra)).
Proof.
  intros Hne. unfold _embed_whitespace.
  destruct (extend_words_spec (split cover_text) (to_binary secret_message)
              (Z.to_nat (len (to_binary secret_message) - (len (split cover_text) - 1)))
              Hne (split cover_text)) as (ws & Hws & (extra & -> & Hextra) & Hgaps).
  - exists []. split; [now rewrite app_nil_r|constructor].
  - lia.
  - exists extra. split; [exact Hextra|]. split; [unfold len in Hgaps; lia|].
    cbv zeta. rewrite Hws. cbn [bind]. now rewrite stego_text_weave.
Qed.

Lemma fields_from_nosep (w rest cur : str) :
  nosep w -> fields_from cur (w ++ rest) = fields_from (cur ++ w) rest.
Proof.
  unfold nosep. revert cur. induction w as [|c w IH]; intros cur H; cbn [app forallb] in *.
  - now rewrite app_nil_r.
  - apply andb_prop in H as [Hc Hw]. apply negb_true_iff in Hc.
    cbn [fields_from]. rewrite Hc, (IH _ Hw), <- app_assoc. reflexivity.
Qed.

Lemma is_sep_sep_char (binary_message : bits) (i : nat) :
  is_sep (sep_char binary_message i) = true.
Proof. unfold sep_char. now destruct (nth i binary_message false). Qed.

Lemma fields_from_weave (binary_message : bits) (words : list str) (i : nat) (cur : str) :
  Forall nosep words -> words <> [] ->
  fields_from cur (weave binary_message i words) = (cur ++ hd [] words) :: tl words.
Proof.
  intros H. revert i cur. induction H as [|w ws Hw Hws IH]; intros i cur Hne;
    [contradiction|].
  cbn [weave hd tl]. destruct ws as [|w' ws'].
  - rewrite <- (app_nil_r w) at 1. now rewrite fields_from_nosep.
  - rewrite fields_from_nosep by exact Hw. cbn [app fields_from].
    rewrite is_sep_sep_char. f_equal.
    rewrite IH by discriminate. reflexivity.
Qed.

(** The embedder on a three-word cover: sixteen bits need seventeen words,
    so the cover is repeated; the two tabs are the two 1 bits of 0x41. *)
Example _embed_whitespace_abc :
  _embed_whitespace (lit "a b c") (lit "A") =
  Ok (lit "a b" ++ [TAB] ++ lit "c a b c a b" ++ [TAB] ++ lit "c a b c a b c a b").
Proof. reflexivity. Qed.

(** C1. Whitespace round trip: on a cover with at least one word and a
    payload of non-zero bytes, embedding with method whitespace returns a
    text from which extracting with method whitespace returns the payload. *)
Theorem whitespace_roundtrip (cover_text payload : str) :
  split cover_text <> [] ->
  payload_ok payload ->
  exists stego_text,
    embed_message cover_text payload (lit "whitespace") = Ok stego_text /\
    extract_message stego_text (lit "whitespace") = Ok payload.
Proof.
  intros Hne Hp.
  destruct (_embed_whitespace_returns cover_text payload Hne) as (extra & Hextra & Hgaps & E).
  eexists. split.
  - exact E.
  - change (Ok (_extract_whitespace (weave (to_binary payload) 0
                                       (split cover_text ++ extra))) = Ok payload).
    unfold _extract_whitespace. f_equal.
    rewrite whitespace_bits_sep_bits.
    rewrite sep_bits_weave by now apply extended_nosep.
    rewrite map_nth_seq_pad by exact Hgaps.
    now apply decode_payload.
Qed.

Lemma whitespace_roundtrip_witness :
  exists stego_text,
    embed_message (lit "a b c") (lit "Hi") (lit "whitespace") = Ok stego_text /\
    extract_message stego_text (lit "whitespace") = Ok (lit "Hi").
Proof.
  apply whitespace_roundtrip.
  - vm_compute. discriminate.
  - repeat constructor.
Defined.

Lemma _embed_whitespace_no_words (cover_text secret_message : str) :
  split cover_text = [] ->
  _embed_whitespace cover_text secret_message = Raise ZeroDivisionError.
Proof.
  intros Hs. unfold _embed_whitespace.
  rewrite Hs. pose proof (to_binary_length secret_message) as Hl.
  destruct (Z.to_nat _) as [|fuel] eqn:Ef.
  - unfold len in Ef. cbn [length] in Ef. lia.
  - cbn [extend_words].
    replace (_ <? _)%Z with true by (symmetry; apply Z.ltb_lt; unfold len; cbn [length]; lia).
    reflexivity.
Qed.

(** C9. On a cover without any word, embedding with method whitespace
    does not return: the extension loop takes the length of the word list
    modulo the number of words of the cover, which is zero, for every secret
    message. *)
Theorem whitespace_embed_empty_cover (cover_text secret_message : str) :
  split cover_text = [] ->
  embed_message cover_text secret_message (lit "whitespace") = Raise ZeroDivisionError.
Proof. apply _embed_whitespace_no_words. Qed.

Lemma whitespace_embed_empty_cover_witness :
  embed_message (lit "  ") (lit "Hi") (lit "whitespace") = Raise ZeroDivisionError.
Proof.
  apply whitespace_embed_empty_cover. vm_compute. reflexivity.
Defined.

(** C10. The whitespace embedder never alters word content: on a cover
    with at least one word, the fields of the returned text between spaces and
    tabs begin with the words of the cover, in order, and every field after
    them is a copy of one of those words. *)
Theorem whitespace_words_preserved (cover_text secret_message : str) :
  split cover_text <> [] ->
  exists stego_text,
    embed_message cover_text secret_message (lit "whitespace") = Ok stego_text /\
    firstn (length (split cover_text)) (split_on_space_tab stego_text) = split cover_text /\
    Forall (fun w => In w (split cover_text))
      (skipn (length (split cover_text)) (split_on_space_tab stego_text)).
Proof.
  intros Hne.
  destruct (_embed_whitespace_returns cover_text secret_message Hne)
    as (extra & Hextra & _ & E).
  eexists. split; [exact E|].
  unfold split_on_space_tab.
  rewrite fields_from_weave; [|now apply extended_nosep|].
  2:{ destruct (split cover_text); [contradiction|discriminate]. }
  assert (Hw : ([] ++ hd [] (split cover_text ++ extra)) :: tl (split cover_text ++ extra)
               = split cover_text ++ extra).
  { destruct (split cover_text); [contradiction|reflexivity]. }
  rewrite Hw. split.
  - rewrite firstn_app, Nat.sub_diag, firstn_all. cbn. apply app_nil_r.
  - rewrite skipn_app, Nat.sub_diag, skipn_all. exact Hextra.
Qed.

Lemma whitespace_words_preserved_witness :
  exists stego_text,
    embed_message (lit "a b c") (lit "Hi") (lit "whitespace") = Ok stego_text /\
    firstn 3 (split_on_space_tab stego_text) = [lit "a"; lit "b"; lit "c"] /\
    Forall (fun w => In w [lit "a"; lit "b"; lit "c"])
      (skipn 3 (split_on_space_tab stego_text)).
Proof.
  apply (whitespace_words_preserved (lit "a b c") (lit "Hi")).
  vm_compute. discriminate.
Defined.

(** ** Dispatch on the method name *)

Lemma _embed_whitespace_outcome (cover_text secret_message : str) :
  _embed_whitespace cover_text secret_message = Raise ZeroDivisionError \/
  exists stego_text, _embed_whitespace cover_text secret_message = Ok stego_text.
Proof.
  destruct (split cover_text) as [|w ws] eqn:Es.
  - left. exact (_embed_whitespace_no_words cover_text secret_message Es).
  - right. destruct (_embed_whitespace_returns cover_text secret_message) as (extra & _ & _ & E).
    + rewrite Es. discriminate.
    + eexists. exact E.
Qed.

Lemma supported_cases (method : str) :
  supported method <->
  (str_eqb method (lit "whitespace") || str_eqb method (lit "synonym") ||
   str_eqb method (lit "binary")) = true.
Proof.
  unfold supported. rewrite !orb_true_iff, !str_eqb_eq. tauto.
Qed.

(** C7. A method name outside whitespace, synonym and binary makes both
    [embed_message] and [extract_message] raise the unsupported-method error,
    whatever the other arguments; with one of the three names neither raises
    it (nor any other [ValueError]). *)
Theorem unsupported_method (cover_text secret_message stego_text method : str) :
  (~ supported method <->
   embed_message cover_text secret_message method = Raise (unsupported method)) /\
  (~ supported method <->
   extract_message stego_text method = Raise (unsupported method)) /\
  (forall msg, embed_message cover_text secret_message method = Raise (ValueError msg) ->
               ~ supported method) /\
  (forall msg, extract_message stego_text method = Raise (ValueError msg) ->
               ~ supported method).
Proof.
  pose proof (supported_cases method) as Hs. unfold embed_message, extract_message.
  pose proof (_embed_whitespace_outcome cover_text secret_message) as Hw.
  destruct (str_eqb method (lit "whitespace")) eqn:E1;
    [|destruct (str_eqb method (lit "synonym")) eqn:E2;
      [|destruct (str_eqb method (lit "binary")) eqn:E3]]; cbn [orb] in Hs.
  4:{ assert (Hns : ~ supported method) by (intros H; apply Hs in H; discriminate H).
      repeat split; intros; auto. }
  all: assert (Hsup : supported method) by (now apply Hs).
  all: repeat split; intros; try contradiction; try discriminate; exfalso.
  all: destruct Hw as [E|[s E]]; rewrite E in *; discriminate.
Qed.

Lemma unsupported_method_witness :
  embed_message (lit "some text") (lit "Hi") (lit "rot13") = Raise (unsupported (lit "rot13")) /\
  extract_message (lit "some text") (lit "rot13") = Raise (unsupported (lit "rot13")).
Proof.
  pose proof (unsupported_method (lit "some text") (lit "Hi") (lit "some text") (lit "rot13"))
    as (H1 & H2 & _).
  split; [apply H1|apply H2]; intros [H|[H|H]]; discriminate H.
Defined.

(** ** Extraction without a terminator *)

(** Each extractor decodes the bit string it recovers. *)
Lemma extract_message_decodes (stego_text method : str) :
  supported method ->
  extract_message stego_text method = Ok (decode_binary (recovered_bits stego_text method)).
Proof.
  unfold extract_message, recovered_bits. intros [ -> | [ -> | -> ] ]; reflexivity.
Qed.

Lemma groups_length (b : bits) : length (groups b) = length b / 8.
Proof. unfold groups. now rewrite length_map, length_seq. Qed.

(** Each extractor decodes the bit string it recovers, whatever the
    tables. *)
Lemma extract_message_with_decodes (py_lower : str -> str)
    (py_isalpha py_isupper : char -> bool) (stego_text method : str) :
  supported method ->
  extract_message_with py_lower py_isalpha py_isupper stego_text method =
  Ok (decode_binary (recovered_bits_with py_lower py_isalpha py_isupper stego_text method)).
Proof.
  unfold extract_message_with, recovered_bits_with.
  intros [ -> | [ -> | -> ] ]; reflexivity.
Qed.

(** At the tables of [PyStr] the extractor over any tables is
    [extract_message]. *)
Lemma extract_message_with_tables (stego_text method : str) :
  extract_message_with lower isalpha isupper stego_text method =
    extract_message stego_text method /\
  recovered_bits_with lower isalpha isupper stego_text method =
    recovered_bits stego_text method.
Proof. split; reflexivity. Qed.

(** C6, as amended. When the recovered bit string has no all-zero 8-bit
    group, [extract_message] returns, with each of the three methods, the
    bytes of all the complete groups; the result is empty only when fewer than
    8 bits were recovered. This holds for every text, whatever Python's
    [lower], [isalpha] and [isupper] are on its characters. *)
Theorem extract_without_terminator (py_lower : str -> str)
    (py_isalpha py_isupper : char -> bool) (stego_text method : str) :
  supported method ->
  no_terminator (recovered_bits_with py_lower py_isalpha py_isupper stego_text method) ->
  extract_message_with py_lower py_isalpha py_isupper stego_text method =
    Ok (map int2
          (groups (recovered_bits_with py_lower py_isalpha py_isupper stego_text method))) /\
  (extract_message_with py_lower py_isalpha py_isupper stego_text method = Ok [] <->
   length (recovered_bits_with py_lower py_isalpha py_isupper stego_text method) < 8).
Proof.
  intros Hm Hn. rewrite extract_message_with_decodes by exact Hm.
  set (b := recovered_bits_with py_lower py_isalpha py_isupper stego_text method) in *.
  rewrite decode_binary_no_terminator by exact Hn. split; [reflexivity|].
  pose proof (groups_length b) as Hl.
  split.
  - intros [= E]. apply map_eq_nil in E. rewrite E in Hl. cbn in Hl.
    destruct (Nat.lt_ge_cases (length b) 8) as [H|H]; [exact H|].
    apply (Nat.Div0.div_le_mono _ _ 8) in H. cbn in H. lia.
  - intros H. rewrite Nat.div_small in Hl by exact H.
    apply length_zero_iff_nil in Hl. now rewrite Hl.
Qed.

(** Two instances: the text of the counterexample below with method
    whitespace, and a Russian text of eight words with method binary, on
    tables that know its letters; each returns the byte 0x80. *)
Lemma extract_without_terminator_witness :
  (extract_message (lit "a" ++ [TAB] ++ lit "b c d e f g h i") (lit "whitespace") =
     Ok [128%N] /\
   (extract_message (lit "a" ++ [TAB] ++ lit "b c d e f g h i") (lit "whitespace") = Ok [] <->
    length (recovered_bits (lit "a" ++ [TAB] ++ lit "b c d e f g h i") (lit "whitespace"))
      < 8)) /\
  (extract_message_with russian_lower russian_isalpha russian_isupper
     russian_greeting (lit "binary") = Ok [128%N] /\
   (extract_message_with russian_lower russian_isalpha russian_isupper
      russian_greeting (lit "binary") = Ok [] <->
    length (recovered_bits_with russian_lower russian_isalpha russian_isupper
              russian_greeting (lit "binary")) < 8)).
Proof.
  split.
  - apply (extract_without_terminator lower isalpha isupper
             (lit "a" ++ [TAB] ++ lit "b c d e f g h i") (lit "whitespace")).
    + left. reflexivity.
    + vm_compute. repeat constructor. discriminate.
  - apply (extract_without_terminator russian_lower russian_isalpha russian_isupper
             russian_greeting (lit "binary")).
    + right. right. reflexivity.
    + vm_compute. repeat constructor. discriminate.
Defined.

(** C6, as stated, fails: this text has eight separators spelling 10000000,
    so no terminator is found, and the whitespace extractor returns the one
    byte 0x80 instead of the empty string. *)
Lemma extract_without_terminator_counterexample :
  no_terminator (recovered_bits (lit "a" ++ [TAB] ++ lit "b c d e f g h i") (lit "whitespace")) /\
  extract_message (lit "a" ++ [TAB] ++ lit "b c d e f g h i") (lit "whitespace") = Ok [128%N] /\
  extract_message (lit "a" ++ [TAB] ++ lit "b c d e f g h i") (lit "whitespace") <> Ok [].
Proof.
  split; [|split].
  - vm_compute. repeat constructor. discriminate.
  - vm_compute. reflexivity.
  - vm_compute. discriminate.
Qed.

(** ** The recommender *)

Lemma choose_method_short (wc cc sc : nat) (cx : float) :
  wc < 30 -> choose_method wc cc sc cx = (lit "whitespace", 0.95%float).
Proof.
  intros H. unfold choose_method.
  now replace (wc <? 30) with true by (symmetry; apply Nat.ltb_lt; exact H).
Qed.

Lemma choose_method_long (wc cc sc : nat) (cx : float) :
  200 < wc -> 1000 < cc ->
  (float_of_nat wc * 0.4 <? float_of_nat sc)%float = false ->
  (0.8 <? cx)%float = false ->
  choose_method wc cc sc cx = (lit "binary", 0.8%float).
Proof.
  intros Hw Hc Hs Hx. unfold choose_method.
  replace (wc <? 30) with false by (symmetry; apply Nat.ltb_ge; lia).
  rewrite Hs, Hx.
  replace (200 <? wc) with true by (symmetry; apply Nat.ltb_lt; exact Hw).
  now replace (1000 <? cc) with true by (symmetry; apply Nat.ltb_lt; exact Hc).
Qed.

(** At the tables of [PyStr] the recommender over any table is
    [analyze_text_for_steganography]. *)
Lemma analyze_text_for_steganography_with_tables (text : str) :
  analyze_text_for_steganography_with lower text = analyze_text_for_steganography text /\
  _calculate_text_complexity_with lower text = _calculate_text_complexity text.
Proof. split; reflexivity. Qed.

(** C8. A text of fewer than 30 words is given method whitespace with
    confidence 0.95, before any other rule is tried. A text of more than 200
    words and more than 1000 characters whose function-word count is not
    above 0.4 times its word count and whose complexity score is not above
    0.8 is given method binary with confidence 0.8. This holds for every
    text, whatever Python's [lower] is on its words. *)
Theorem recommender_thresholds (py_lower : str -> str) (text : str) :
  (length (split text) < 30 ->
   recommended_method (analyze_text_for_steganography_with py_lower text) =
     lit "whitespace" /\
   confidence (analyze_text_for_steganography_with py_lower text) = 0.95%float) /\
  (200 < length (split text) -> 1000 < length text ->
   (float_of_nat (length (split text)) * 0.4 <?
    float_of_nat
      (synonym_word_count (analyze_text_for_steganography_with py_lower text)))%float
     = false ->
   (0.8 <? _calculate_text_complexity_with py_lower text)%float = false ->
   recommended_method (analyze_text_for_steganography_with py_lower text) = lit "binary" /\
   confidence (analyze_text_for_steganography_with py_lower text) = 0.8%float).
Proof.
  split.
  - intros H. unfold analyze_text_for_steganography_with.
    rewrite choose_method_short by exact H. split; reflexivity.
  - intros Hw Hc Hs Hx. unfold analyze_text_for_steganography_with in *.
    destruct (choose_method _ _ _ _) as [m c] eqn:E in Hs. cbn [synonym_word_count] in Hs.
    rewrite choose_method_long by assumption. split; reflexivity.
Qed.

(** Three instances: a text of ten words; a plain text of 250 words; and a
    Russian text of 250 words in which every word occurs once in lower case
    and once in capitals, on a table that knows its letters (complexity
    0.6). *)
Lemma recommender_thresholds_witness :
  (recommended_method
     (analyze_text_for_steganography (lit "one two three four five six seven eight nine ten"))
   = lit "whitespace" /\
   confidence
     (analyze_text_for_steganography (lit "one two three four five six seven eight nine ten"))
   = 0.95%float) /\
  (recommended_method (analyze_text_for_steganography long_plain_text) = lit "binary" /\
   confidence (analyze_text_for_steganography long_plain_text) = 0.8%float) /\
  (recommended_method (analyze_text_for_steganography_with russian_lower russian_text)
     = lit "binary" /\
   confidence (analyze_text_for_steganography_with russian_lower russian_text)
     = 0.8%float).
Proof.
  split; [|split].
  - apply (proj1 (recommender_thresholds lower
                    (lit "one two three four five six seven eight nine ten"))).
    vm_compute. lia.
  - apply (proj2 (recommender_thresholds lower long_plain_text)).
    + vm_compute. lia.
    + vm_compute. lia.
    + vm_compute. reflexivity.
    + vm_compute. reflexivity.
  - apply (proj2 (recommender_thresholds russian_lower russian_text)).
    + vm_compute. lia.
    + vm_compute. lia.
    + vm_compute. reflexivity.
    + vm_compute. reflexivity.
Defined.

(** ** Splitting what was joined *)

Lemma split_from_word (w rest cur : str) :
  nospace w -> split_from cur (w ++ rest) = split_from (cur ++ w) rest.
Proof.
  unfold nospace. revert cur. induction w as [|c w IH]; intros cur H; cbn [app forallb] in *.
  - now rewrite app_nil_r.
  - apply andb_prop in H as [Hc Hw]. apply negb_true_iff in Hc.
    cbn [split_from]. rewrite Hc, (IH _ Hw), <- app_assoc. reflexivity.
Qed.

Lemma split_join (ws : list str) :
  Forall (fun w => w <> [] /\ nospace w) ws -> split (join [SPACE] ws) = ws.
Proof.
  unfold split. induction 1 as [|w ws [Hne Hw] Hws IH]; [reflexivity|].
  cbn [join]. destruct ws as [|w' ws'].
  - rewrite <- (app_nil_r w) at 1. rewrite split_from_word by exact Hw.
    cbn. now destruct w.
  - rewrite split_from_word by exact Hw. cbn [app split_from].
    change (isspace SPACE) with true. cbn iota.
    destruct w; [contradiction|]. now rewrite IH.
Qed.

Lemma split_from_chars (P : char -> Prop) (s cur : str) :
  Forall P cur -> Forall P s -> Forall (Forall P) (split_from cur s).
Proof.
  intros Hcur Hs. revert cur Hcur.
  induction Hs as [|c s Hc Hs IH]; intros cur Hcur; cbn [split_from].
  - destruct cur; repeat constructor; inversion Hcur; assumption.
  - destruct (isspace c).
    + destruct cur; [now apply IH|constructor; [exact Hcur|now apply IH]].
    + apply IH. apply Forall_app. split; [exact Hcur|now constructor].
Qed.

Lemma split_latin1 (s : str) : latin1 s -> Forall latin1 (split s).
Proof. intros H. now apply split_from_chars. Qed.

(** ** Words as bit carriers *)

Lemma skipn_nth_cons (bm : bits) (i : nat) :
  i < length bm -> skipn i bm = nth i bm false :: skipn (S i) bm.
Proof.
  revert i. induction bm as [|b bm IH]; intros i H; [cbn in H; lia|].
  destruct i; [reflexivity|]. cbn [skipn nth]. apply IH. cbn in H. lia.
Qed.

Lemma dummy_loop_spec (one zero : str) (bm : bits) (fuel : nat) :
  forall acc bi,
  length bm - bi <= fuel ->
  dummy_loop fuel one zero bm (acc, bi) =
  (acc ++ map (dummy one zero) (skipn bi bm), Nat.max bi (length bm)).
Proof.
  induction fuel as [|fuel IH]; intros acc bi Hf; cbn [dummy_loop].
  - rewrite skipn_all2 by lia. cbn. rewrite app_nil_r. f_equal. lia.
  - destruct (Nat.ltb_spec bi (length bm)) as [Hlt|Hge].
    + rewrite IH by lia. rewrite (skipn_nth_cons bm bi Hlt). cbn [map].
      rewrite <- app_assoc. cbn [app]. unfold dummy at 2. rewrite Nat.add_1_r.
      f_equal. lia.
    + rewrite skipn_all2 by lia. cbn. rewrite app_nil_r. f_equal. lia.
Qed.

(** The loop ends on its own test: the cursor has reached the end. *)
Lemma dummy_loop_exit (one zero : str) (bm : bits) (acc : list str) (bi : nat) :
  length bm <= snd (dummy_loop (length bm - bi) one zero bm (acc, bi)).
Proof. rewrite dummy_loop_spec by lia. cbn. lia. Qed.

Section Carrier.

Variable bm : bits.
Variable eligible : str -> bool.
Variable f : bool -> str -> str.
Variable step : list str * nat -> str -> list str * nat.

Hypothesis step_eq : forall acc bi w,
  step (acc, bi) w =
  if eligible w && (bi <? length bm)
  then (acc ++ [f (nth bi bm false) w], bi + 1)
  else (acc ++ [w], bi).

Lemma fold_step_enc (words : list str) :
  forall acc bi,
  bi <= length bm ->
  exists bi',
    fold_left step words (acc, bi) = (acc ++ enc eligible f words (skipn bi bm), bi') /\
    bi' <= length bm /\
    skipn bi' bm = rest_bits eligible words (skipn bi bm).
Proof.
  induction words as [|w ws IH]; intros acc bi Hbi; cbn [fold_left enc rest_bits].
  - exists bi. now rewrite app_nil_r.
  - rewrite step_eq. destruct (eligible w); cbn [andb].
    + destruct (Nat.ltb_spec bi (length bm)) as [Hlt|Hge].
      * destruct (IH (acc ++ [f (nth bi bm false) w]) (bi + 1)) as (bi' & E & Hle & Hr);
          [lia|].
        exists bi'. rewrite E, (skipn_nth_cons bm bi Hlt), <- app_assoc. cbn [app tl].
        rewrite Nat.add_1_r in *. auto.
      * destruct (IH (acc ++ [w]) bi Hbi) as (bi' & E & Hle & Hr).
        assert (Hs : skipn bi bm = []) by (apply skipn_all2; lia).
        exists bi'. rewrite E. rewrite Hs in *.
        rewrite <- app_assoc. cbn [app tl]. auto.
    + destruct (IH (acc ++ [w]) bi Hbi) as (bi' & E & Hle & Hr).
      exists bi'. rewrite E, <- app_assoc. auto.
Qed.

(** The words an embedder returns: the encoded cover, then one dummy per bit
    that is left. *)
Lemma embed_words (one zero : str) (words : list str) :
  fst (dummy_loop (length bm - snd (fold_left step words ([], 0))) one zero bm
         (fold_left step words ([], 0))) =
  enc eligible f words bm ++ map (dummy one zero) (rest_bits eligible words bm).
Proof.
  destruct (fold_step_enc words [] 0 (Nat.le_0_l _)) as (bi' & E & Hle & Hr).
  rewrite E. cbn [snd app skipn] in *. rewrite dummy_loop_spec by lia.
  cbn [fst]. now rewrite Hr.
Qed.

Variable read : str -> bits.
Variables one zero : str.

Hypothesis read_dummy : forall b, read (dummy one zero b) = [b].

Lemma read_dummies (rem : bits) : flat_map read (map (dummy one zero) rem) = rem.
Proof.
  induction rem as [|b rem IH]; [reflexivity|].
  cbn [map flat_map]. now rewrite read_dummy, IH.
Qed.

(** Reading back what was written gives the bits, then possibly more. *)
Lemma read_enc (words : list str) :
  Forall (fun w => if eligible w then forall b, read (f b w) = [b] else read w = []) words ->
  forall rem, exists extra,
    flat_map read (enc eligible f words rem ++
                   map (dummy one zero) (rest_bits eligible words rem)) = rem ++ extra.
Proof.
  induction 1 as [|w ws Hw Hws IH]; intros rem; cbn [enc rest_bits].
  - exists []. cbn [app]. now rewrite read_dummies, app_nil_r.
  - destruct (eligible w).
    + destruct rem as [|b rem']; cbn [tl].
      * destruct (IH []) as (extra & E). exists (read w ++ extra).
        cbn [app flat_map]. now rewrite E.
      * destruct (IH rem') as (extra & E). exists extra.
        cbn [app flat_map]. now rewrite Hw, E.
    + destruct (IH rem) as (extra & E). exists extra.
      cbn [app flat_map]. now rewrite Hw, E.
Qed.

Lemma enc_Forall (P : str -> Prop) (words : list str) :
  Forall (fun w => P w /\ (eligible w = true -> forall b, P (f b w))) words ->
  (forall b, P (dummy one zero b)) ->
  forall rem,
    Forall P (enc eligible f words rem ++ map (dummy one zero) (rest_bits eligible words rem)).
Proof.
  intros H Hd. induction H as [|w ws [Hw Hf] Hws IH]; intros rem; cbn [enc rest_bits].
  - cbn [app]. apply Forall_map. apply Forall_forall. intros b _. apply Hd.
  - destruct (eligible w).
    + destruct rem as [|b rem']; cbn [tl app]; constructor; auto.
    + cbn [app]. constructor; auto.
Qed.

End Carrier.

(** ** The capitalisation method *)

Lemma binary_step_eq (bm : bits) (acc : list str) (bi : nat) (w : str) :
  binary_step bm (acc, bi) w =
  if (fun _ : str => true) w && (bi <? length bm)
  then (acc ++ [binary_word (nth bi bm false) w], bi + 1)
  else (acc ++ [w], bi).
Proof. unfold binary_step. cbn [andb]. now destruct (bi <? length bm). Qed.

Lemma _embed_binary_words (cover_text secret_message : str) :
  _embed_binary cover_text secret_message =
  join [SPACE]
    (enc (fun _ => true) binary_word (split cover_text) (to_binary secret_message) ++
     map (dummy (lit "Data") (lit "data"))
       (rest_bits (fun _ => true) (split cover_text) (to_binary secret_message))).
Proof.
  unfold _embed_binary. cbv zeta. f_equal.
  apply (embed_words (to_binary secret_message) (fun _ => true) binary_word
           (binary_step (to_binary secret_message))).
  apply binary_step_eq.
Qed.

Lemma fold_binary_bit_step (words : list str) (acc : bits) :
  fold_left binary_bit_step words acc = acc ++ flat_map (fun w => [bit_of_word w]) words.
Proof.
  revert acc. induction words as [|w ws IH]; intros acc; cbn [fold_left flat_map].
  - now rewrite app_nil_r.
  - assert (E : binary_bit_step acc w = acc ++ [bit_of_word w]).
    { unfold binary_bit_step, bit_of_word.
      destruct (filter isalpha w) as [|c r]; [reflexivity|]. now destruct (isupper c). }
    rewrite IH, E, <- app_assoc. reflexivity.
Qed.

(** The facts about the case tables that the method rests on, checked on
    every character of U+0000..U+00FF. *)
Lemma case_tables (c : char) :
  (c < 256)%N ->
  (isalpha c = true -> caseless c = false ->
   exists u r, upper_char c = u :: r /\ isalpha u = true /\ isupper u = true) /\
  (isalpha c = true -> isalpha (lower_char c) = true /\ isupper (lower_char c) = false) /\
  (isspace c = false ->
   forallb (fun d => negb (isspace d)) (upper_char c) = true /\ isspace (lower_char c) = false).
Proof.
  intros Hc.
  pose (P := fun c : N =>
    implb (isalpha c && negb (caseless c))
      (match upper_char c with u :: _ => isalpha u && isupper u | [] => false end) &&
    implb (isalpha c) (isalpha (lower_char c) && negb (isupper (lower_char c))) &&
    implb (negb (isspace c))
      (forallb (fun d => negb (isspace d)) (upper_char c) && negb (isspace (lower_char c)))).
  assert (HP : P c = true) by (apply forall_bytes; [vm_compute; reflexivity|exact Hc]).
  unfold P in HP. apply andb_prop in HP as [HP H3]. apply andb_prop in HP as [H1 H2].
  split; [|split].
  - intros Ha Hn. rewrite Ha, Hn in H1. cbn [andb negb implb] in H1.
    destruct (upper_char c) as [|u r]; [discriminate|].
    apply andb_prop in H1 as [? ?]. now exists u, r.
  - intros Ha. rewrite Ha in H2. cbn [implb] in H2. apply andb_prop in H2 as [? H].
    apply negb_true_iff in H. now split.
  - intros Hs. rewrite Hs in H3. cbn [negb implb] in H3. apply andb_prop in H3 as [? H].
    apply negb_true_iff in H. now split.
Qed.

Lemma word_char_spec (c : char) :
  word_char c = true <-> (c < 256)%N /\ isspace c = false.
Proof.
  unfold word_char. rewrite andb_true_iff, N.ltb_lt, negb_true_iff. reflexivity.
Qed.

Lemma forallb_filter {A} (p q : A -> bool) (l : list A) :
  forallb p l = true -> forallb p (filter q l) = true.
Proof.
  rewrite !forallb_forall. intros H x Hx. apply filter_In in Hx as [Hx _]. now apply H.
Qed.

Lemma nospace_lower (s : str) : forallb word_char s = true -> nospace (lower s).
Proof.
  unfold nospace, lower. induction s as [|c s IH]; cbn [forallb map]; [reflexivity|].
  intros H. apply andb_prop in H as [Hc Hs]. apply word_char_spec in Hc as [Hc Hn].
  destruct (case_tables c Hc) as (_ & _ & Hsp). destruct (Hsp Hn) as [_ Hl].
  now rewrite Hl, (IH Hs).
Qed.

Lemma nospace_upper (s : str) : forallb word_char s = true -> nospace (upper s).
Proof.
  unfold nospace, upper. induction s as [|c s IH]; cbn [forallb flat_map]; [reflexivity|].
  intros H. apply andb_prop in H as [Hc Hs]. apply word_char_spec in Hc as [Hc Hn].
  destruct (case_tables c Hc) as (_ & _ & Hsp). destruct (Hsp Hn) as [Hu _].
  now rewrite forallb_app, Hu, (IH Hs).
Qed.

Lemma word_char_nospace (s : str) : forallb word_char s = true -> nospace s.
Proof.
  unfold nospace. rewrite !forallb_forall. intros H c Hc.
  apply H, word_char_spec in Hc as [_ Hn]. now rewrite Hn.
Qed.

Lemma forallb_tail {A} (p : A -> bool) (x : A) (l : list A) :
  forallb p (x :: l) = true -> forallb p l = true.
Proof. cbn. intros H. now apply andb_prop in H as [_ ?]. Qed.

(** The word written for a bit is a word again. *)
Lemma binary_word_is_word (b : bool) (w : str) :
  forallb word_char w = true -> carries_bit w = true ->
  binary_word b w <> [] /\ nospace (binary_word b w).
Proof.
  intros Hw Hc. unfold binary_word, carries_bit in *. cbv zeta.
  pose proof (forallb_filter word_char isalpha w Hw) as Hclean.
  pose proof (word_char_nospace _ (forallb_filter word_char (fun c => negb (isalpha c)) w Hw))
    as Hpunct.
  destruct (filter isalpha w) as [|c r] eqn:Ef; [discriminate|].
  assert (Hin : In c (filter isalpha w)) by (rewrite Ef; now left).
  apply filter_In in Hin as [Hin Ha].
  rewrite forallb_forall in Hw. apply Hw, word_char_spec in Hin as [Hlt _].
  destruct (case_tables c Hlt) as (Hup & _ & _).
  apply negb_true_iff in Hc. destruct (Hup Ha Hc) as (u & r' & Eu & _ & _).
  split.
  - destruct b.
    + destruct (1 <? length (c :: r)); unfold upper; cbn [flat_map]; rewrite Eu; discriminate.
    + discriminate.
  - apply nospace_app; [|exact Hpunct]. destruct b.
    + destruct (1 <? length (c :: r)).
      * apply nospace_app; [apply nospace_upper|apply nospace_lower].
        -- cbn [forallb] in *. apply andb_prop in Hclean as [H1 _]. now rewrite H1.
        -- now apply forallb_tail in Hclean.
      * now apply nospace_upper.
    + now apply nospace_lower.
Qed.

(** The bit read from the word written for a bit is that bit. *)
Lemma binary_word_bit (b : bool) (w : str) :
  forallb word_char w = true -> carries_bit w = true ->
  bit_of_word (binary_word b w) = b.
Proof.
  intros Hw Hc. unfold binary_word, carries_bit, bit_of_word in *. cbv zeta.
  destruct (filter isalpha w) as [|c r] eqn:Ef; [discriminate|].
  assert (Hin : In c (filter isalpha w)) by (rewrite Ef; now left).
  apply filter_In in Hin as [Hin Ha].
  rewrite forallb_forall in Hw. apply Hw, word_char_spec in Hin as [Hlt _].
  destruct (case_tables c Hlt) as (Hup & Hlow & _).
  apply negb_true_iff in Hc. destruct (Hup Ha Hc) as (u & r' & Eu & Hau & Huu).
  destruct (Hlow Ha) as [Hal Hul].
  rewrite filter_app. destruct b.
  - destruct (1 <? length (c :: r)); unfold upper; cbn [flat_map]; rewrite Eu;
      rewrite <- ?app_assoc; cbn [app filter]; rewrite Hau; cbn [app]; exact Huu.
  - unfold lower. cbn [map filter]. rewrite Hal. cbn [app]. exact Hul.
Qed.

Lemma split_word_chars (s : str) :
  latin1 s -> Forall (fun w => w <> [] /\ forallb word_char w = true) (split s).
Proof.
  intros H. pose proof (split_words s) as H1. pose proof (split_latin1 s H) as H2.
  rewrite Forall_forall in *. intros w Hw.
  destruct (H1 w Hw) as [Hne Hn]. split; [exact Hne|].
  specialize (H2 w Hw). unfold latin1 in H2. unfold nospace in Hn.
  rewrite Forall_forall in H2. rewrite forallb_forall in *. intros c Hc.
  apply word_char_spec. split; [now apply H2|]. specialize (Hn c Hc).
  now apply negb_true_iff in Hn.
Qed.

Example _embed_binary_hello :
  _embed_binary (lit "Hello, wOrld! 4you and more words follow here") (lit "A") =
  lit "hello, World! you4 and more words follow Here data data data data data data data data".
Proof. vm_compute. reflexivity. Qed.

(** C3, as amended. Capitalisation round trip: on a cover of characters
    in U+0000..U+00FF in which the first alphabetic character of every word
    has case, and a payload of non-zero bytes, extracting with method binary
    from the text embedded with method binary returns the payload. *)
Theorem binary_roundtrip (cover_text payload : str) :
  latin1 cover_text ->
  Forall (fun w => carries_bit w = true) (split cover_text) ->
  payload_ok payload ->
  exists stego_text,
    embed_message cover_text payload (lit "binary") = Ok stego_text /\
    extract_message stego_text (lit "binary") = Ok payload.
Proof.
  intros Hl Hc Hp. eexists. split; [reflexivity|].
  change (Ok (_extract_binary (_embed_binary cover_text payload)) = Ok payload).
  f_equal. unfold _extract_binary, binary_bits.
  rewrite _embed_binary_words.
  pose proof (split_word_chars cover_text Hl) as Hw.
  rewrite split_join.
  - rewrite fold_binary_bit_step. cbn [app].
    destruct (read_enc (fun _ => true) binary_word (fun w => [bit_of_word w])
                (lit "Data") (lit "data")) with (words := split cover_text)
                (rem := to_binary payload) as (extra & E).
    + now intros [].
    + rewrite Forall_forall in *. intros w Hin b. f_equal.
      apply binary_word_bit; [apply Hw, Hin|apply Hc, Hin].
    + rewrite E. now apply decode_payload.
  - apply enc_Forall.
    + rewrite Forall_forall in *. intros w Hin. destruct (Hw w Hin) as [Hne Hch].
      split; [split; [exact Hne|now apply word_char_nospace]|].
      intros _ b. apply binary_word_is_word; [exact Hch|apply Hc, Hin].
    + intros []; split; (discriminate || reflexivity).
Qed.

Lemma binary_roundtrip_witness :
  exists stego_text,
    embed_message (lit "Hello, wOrld! 4you") (lit "Hi") (lit "binary") = Ok stego_text /\
    extract_message stego_text (lit "binary") = Ok (lit "Hi").
Proof.
  apply binary_roundtrip.
  - unfold latin1. vm_compute. repeat constructor.
  - vm_compute. repeat constructor.
  - repeat constructor.
Defined.

(** C3, as stated, fails: both words of this cover contain an alphabetic
    character, but the second is the feminine ordinal indicator U+00AA, a
    letter without case. It is given bit 1 of the payload; [upper] leaves it
    unchanged, the extractor reads 0, and the byte 0x01 comes back instead of
    0x41. *)
Lemma binary_roundtrip_counterexample :
  Forall (fun w => existsb isalpha w = true) (split (lit "x " ++ [0xAA%N])) /\
  payload_ok (lit "A") /\
  embed_message (lit "x " ++ [0xAA%N]) (lit "A") (lit "binary") =
    Ok (_embed_binary (lit "x " ++ [0xAA%N]) (lit "A")) /\
  extract_message (_embed_binary (lit "x " ++ [0xAA%N]) (lit "A")) (lit "binary") = Ok [1%N] /\
  ~ (exists stego_text,
       embed_message (lit "x " ++ [0xAA%N]) (lit "A") (lit "binary") = Ok stego_text /\
       extract_message stego_text (lit "binary") = Ok (lit "A")).
Proof.
  split; [|split; [|split; [|split]]].
  - vm_compute. repeat constructor.
  - repeat constructor.
  - reflexivity.
  - vm_compute. reflexivity.
  - intros (s & E & X). vm_compute in E. injection E as <-. vm_compute in X. discriminate X.
Qed.

(** ** The synonym method *)

Lemma synonym_step_eq (bm : bits) (acc : list str) (bi : nat) (w : str) :
  synonym_step bm (acc, bi) w =
  if eligible_word w && (bi <? length bm)
  then (acc ++ [synonym_word (nth bi bm false) w], bi + 1)
  else (acc ++ [w], bi).
Proof.
  unfold synonym_step, eligible_word, synonym_word, pick. cbv zeta.
  destruct (lookup (clean w) synonyms); cbn [andb]; [|reflexivity].
  now destruct (bi <? length bm).
Qed.

Lemma _embed_synonym_words (cover_text secret_message : str) :
  _embed_synonym cover_text secret_message =
  join [SPACE]
    (enc eligible_word synonym_word (split cover_text) (to_binary secret_message) ++
     map (dummy (lit "Furthermore") (lit "and"))
       (rest_bits eligible_word (split cover_text) (to_binary secret_message))).
Proof.
  unfold _embed_synonym. cbv zeta. f_equal.
  apply (embed_words (to_binary secret_message) eligible_word synonym_word
           (synonym_step (to_binary secret_message))).
  apply synonym_step_eq.
Qed.

Lemma fold_synonym_bit_step (words : list str) (acc : bits) :
  fold_left synonym_bit_step words acc = acc ++ flat_map read_word words.
Proof.
  revert acc. induction words as [|w ws IH]; intros acc; cbn [fold_left flat_map].
  - now rewrite app_nil_r.
  - assert (E : synonym_bit_step acc w = acc ++ read_word w).
    { unfold synonym_bit_step, read_word.
      destruct (word_bit w); [reflexivity|now rewrite app_nil_r]. }
    rewrite IH, E, <- app_assoc. reflexivity.
Qed.

Lemma table_ok : forallb entry_ok synonyms = true.
Proof. vm_compute. reflexivity. Qed.

Lemma lookup_In (k : str) (options : list str) :
  lookup k synonyms = Some options -> In (k, options) synonyms.
Proof.
  unfold lookup. destruct (find _ synonyms) as [[k' o]|] eqn:E; [|discriminate].
  intros [= <-]. apply find_some in E as [Hin Hk]. cbn [fst] in Hk.
  apply str_eqb_eq in Hk. now subst.
Qed.

Lemma lstrip_all (chars a b : str) :
  forallb (fun c => mem c chars) a = true -> lstrip chars (a ++ b) = lstrip chars b.
Proof.
  induction a as [|c a IH]; cbn [forallb app lstrip]; [reflexivity|].
  intros H. apply andb_prop in H as [Hc Ha]. rewrite Hc. now apply IH.
Qed.

Lemma lstrip_head (chars s : str) :
  match s with c :: _ => negb (mem c chars) | [] => true end = true ->
  lstrip chars s = s.
Proof.
  destruct s as [|c s]; [reflexivity|]. cbn [lstrip]. intros H.
  apply negb_true_iff in H. now rewrite H.
Qed.

Lemma forallb_rev {A} (p : A -> bool) (l : list A) :
  forallb p l = true -> forallb p (rev l) = true.
Proof.
  rewrite !forallb_forall. intros H x Hx. apply H. now apply in_rev.
Qed.

(** Stripping removes trailing punctuation and nothing else. *)
Lemma strip_word_punct (syn ps : str) :
  ends_clean syn = true -> forallb (fun c => mem c PUNCT) ps = true ->
  strip PUNCT (syn ++ ps) = syn.
Proof.
  unfold ends_clean, strip, rstrip. intros H Hps. apply andb_prop in H as [Hh Hl].
  rewrite (lstrip_head PUNCT (syn ++ ps)).
  2:{ destruct syn; [discriminate|exact Hh]. }
  rewrite rev_app_distr, lstrip_all by now apply forallb_rev.
  rewrite lstrip_head; [apply rev_involutive|].
  destruct (rev syn); [discriminate|exact Hl].
Qed.

Lemma lower_punct (ps : str) :
  forallb (fun c => mem c PUNCT) ps = true -> lower ps = ps.
Proof.
  unfold lower. induction ps as [|c ps IH]; cbn [forallb map]; [reflexivity|].
  intros H. apply andb_prop in H as [Hc Hps]. rewrite (IH Hps). f_equal.
  unfold mem in Hc. apply existsb_exists in Hc as (x & Hin & Hx).
  apply N.eqb_eq in Hx. subst x.
  cbn in Hin. repeat (destruct Hin as [<-|Hin]; [reflexivity|]). contradiction.
Qed.

Lemma forallb_filter_self {A} (q : A -> bool) (l : list A) :
  forallb q (filter q l) = true.
Proof.
  apply forallb_forall. intros x Hx. now apply filter_In in Hx as [_ ?].
Qed.

Lemma nospace_filter (q : char -> bool) (w : str) : nospace w -> nospace (filter q w).
Proof. apply forallb_filter. Qed.

(** What is written for a function word with a reliable key is a word, and
    the extractor reads from it the bit it was written for. *)
Lemma synonym_word_facts (b : bool) (w : str) :
  nospace w -> eligible_word w = true -> reliable_key (clean w) = true ->
  word_bit (synonym_word b w) = Some b /\
  synonym_word b w <> [] /\ nospace (synonym_word b w).
Proof.
  intros Hw He Hk. unfold eligible_word in He. unfold synonym_word.
  destruct (lookup (clean w) synonyms) as [options|] eqn:El; [|discriminate]. cbv zeta.
  pose proof table_ok as Ht. rewrite forallb_forall in Ht.
  specialize (Ht _ (lookup_In _ _ El)). unfold entry_ok in Ht. cbn [fst snd] in Ht.
  rewrite Hk in Ht. cbn [implb] in Ht. rewrite forallb_forall in Ht.
  assert (Hb : In b [false; true]) by (destruct b; cbn; auto).
  specialize (Ht b Hb). cbv zeta in Ht.
  set (syn := pick b options) in *.
  apply andb_prop in Ht as [Ht Hrd]. apply andb_prop in Ht as [Ht Hcne].
  apply andb_prop in Ht as [Ht Hcsp]. apply andb_prop in Ht as [Ht Hssp].
  apply andb_prop in Ht as [Ht Hlc]. apply andb_prop in Ht as [Hec Hls].
  apply str_eqb_eq in Hlc, Hls. apply negb_true_iff, str_eqb_neq in Hcne.
  set (ps := filter (fun c => mem c PUNCT) w).
  assert (Hps : forallb (fun c => mem c PUNCT) ps = true) by apply forallb_filter_self.
  assert (Hclean : forall S, lower S = syn -> clean (S ++ ps) = syn).
  { intros S HS. unfold clean, lower. rewrite map_app. fold (lower S) (lower ps).
    rewrite HS, (lower_punct ps Hps). now apply strip_word_punct. }
  assert (Hbit : clean_bit syn = Some b).
  { destruct (clean_bit syn) as [b'|]; [|discriminate]. f_equal. now apply eqb_prop. }
  assert (Hsyn : syn <> []) by (intros E; rewrite E in Hec; discriminate).
  destruct (match w with c :: _ => isupper c | [] => false end).
  - split; [unfold word_bit; now rewrite Hclean|]. split.
    + intros E. apply app_eq_nil in E as [E _]. contradiction.
    + apply nospace_app; [assumption|now apply nospace_filter].
  - split; [unfold word_bit; now rewrite Hclean|]. split.
    + intros E. apply app_eq_nil in E as [E _]. contradiction.
    + apply nospace_app; [assumption|now apply nospace_filter].
Qed.

Example _embed_synonym_farm :
  _embed_synonym farm_cover (lit "A") =
  lit "The cat exists and the dog was, but the bird possesses or the fish did and the cow will be the end.".
Proof. vm_compute. reflexivity. Qed.

(** The three unreliable keys. A cover of sixteen times were carries every
    bit inverted: the extractor meets "were" as alternative 1 of the entry
    "was" and "was" as its alternative 0, before it comes to the entry
    "were". *)
Example unreliable_keys :
  filter (fun e => negb (forallb (fun b => match clean_bit (pick b (snd e)) with
                                           | Some b' => Bool.eqb b' b
                                           | None => false
                                           end) [false; true])) synonyms =
  filter (fun e => negb (reliable_key (fst e))) synonyms.
Proof. vm_compute. reflexivity. Qed.

Example were_cover_inverted :
  _extract_synonym
    (_embed_synonym
       (lit "were were were were were were were were were were were were were were were were")
       (lit "A")) = [0xBE%N; 0xFF%N].
Proof. vm_compute. reflexivity. Qed.

(** C4, as amended. Synonym round trip: on a cover of characters in
    U+0000..U+00FF that has at least [8 * len(payload) + 8] function words,
    in which every function word is one of the eighteen with a reliable key
    (not were, should or can) and every other word is one the extractor does
    not read as a bit, and a payload of non-zero bytes, extracting with method
    synonym from the text embedded with method synonym returns the payload. *)
Theorem synonym_roundtrip (cover_text payload : str) :
  latin1 cover_text ->
  Forall (fun w => synonym_word_ok w = true) (split cover_text) ->
  8 * length payload + 8 <= length (filter eligible_word (split cover_text)) ->
  payload_ok payload ->
  exists stego_text,
    embed_message cover_text payload (lit "synonym") = Ok stego_text /\
    extract_message stego_text (lit "synonym") = Ok payload.
Proof.
  intros _ Hok _ Hp. eexists. split; [reflexivity|].
  change (Ok (_extract_synonym (_embed_synonym cover_text payload)) = Ok payload).
  f_equal. unfold _extract_synonym, synonym_bits.
  rewrite _embed_synonym_words.
  pose proof (split_words cover_text) as Hw.
  assert (Hall : forall w, In w (split cover_text) ->
            (w <> [] /\ nospace w) /\
            if eligible_word w
            then forall b, word_bit (synonym_word b w) = Some b /\
                           synonym_word b w <> [] /\ nospace (synonym_word b w)
            else word_bit w = None).
  { rewrite Forall_forall in Hok, Hw. intros w Hin.
    split; [now apply Hw|]. specialize (Hok w Hin). destruct (Hw w Hin) as [_ Hn].
    unfold synonym_word_ok in Hok.
    destruct (eligible_word w) eqn:Ee.
    - intros b. apply synonym_word_facts; [exact Hn|exact Ee|].
      unfold eligible_word in Ee. now destruct (lookup (clean w) synonyms).
    - unfold eligible_word in Ee. destruct (lookup (clean w) synonyms); [discriminate|].
      now destruct (word_bit w). }
  rewrite split_join.
  - rewrite fold_synonym_bit_step. cbn [app].
    destruct (read_enc eligible_word synonym_word read_word
                (lit "Furthermore") (lit "and")) with (words := split cover_text)
                (rem := to_binary payload) as (extra & E).
    + now intros [].
    + apply Forall_forall. intros w Hin. destruct (Hall w Hin) as [_ H].
      unfold read_word. destruct (eligible_word w).
      * intros b. now destruct (H b) as [-> _].
      * now rewrite H.
    + rewrite E. now apply decode_payload.
  - apply enc_Forall.
    + apply Forall_forall. intros w Hin. destruct (Hall w Hin) as [Hword H].
      split; [exact Hword|]. intros Ee b. rewrite Ee in H. now destruct (H b) as (_ & ? & ?).
    + intros []; split; (discriminate || reflexivity).
Qed.

Lemma synonym_roundtrip_witness :
  exists stego_text,
    embed_message farm_cover (lit "A") (lit "synonym") = Ok stego_text /\
    extract_message stego_text (lit "synonym") = Ok (lit "A").
Proof.
  apply synonym_roundtrip.
  - unfold latin1. vm_compute. repeat constructor.
  - vm_compute. repeat constructor.
  - vm_compute. lia.
  - repeat constructor.
Defined.

(** C4, as stated, fails: this cover has sixteen function words for a
    payload of one byte, and neither and nor furthermore occurs in the cover
    or in the text returned. The embedder leaves the word this alone; the
    extractor reads it as a 1, which shifts every bit by one place, and the
    bytes 0xA0 0x80 come back instead of 0x41. *)
Lemma synonym_roundtrip_counterexample :
  8 * length (lit "A") + 8 <= length (filter eligible_word (split this_cover)) /\
  payload_ok (lit "A") /\
  Forall (fun w => clean w <> lit "and" /\ clean w <> lit "furthermore")
    (split this_cover ++ split (_embed_synonym this_cover (lit "A"))) /\
  embed_message this_cover (lit "A") (lit "synonym") =
    Ok (_embed_synonym this_cover (lit "A")) /\
  extract_message (_embed_synonym this_cover (lit "A")) (lit "synonym") =
    Ok [160%N; 128%N] /\
  ~ (exists stego_text,
       embed_message this_cover (lit "A") (lit "synonym") = Ok stego_text /\
       extract_message stego_text (lit "synonym") = Ok (lit "A")).
Proof.
  split; [|split; [|split; [|split; [|split]]]].
  - vm_compute. lia.
  - repeat constructor.
  - vm_compute. repeat constructor; discriminate.
  - reflexivity.
  - vm_compute. reflexivity.
  - intros (s & E & X). vm_compute in E. injection E as <-. vm_compute in X. discriminate X.
Qed.

(** * Further properties of the code *)

(** ** What extraction can return *)

Lemma int2_zero (g : bits) : length g = 8 -> int2 g = 0%N -> g = END_MARKER.
Proof.
  intros H.
  do 8 (destruct g as [|[] g]; [discriminate H|..]);
    (destruct g; [vm_compute; intros E; try reflexivity; discriminate E | discriminate H]).
Qed.

Lemma groups_complete (b : bits) : Forall (fun g => length g = 8) (groups b).
Proof.
  unfold groups. apply Forall_map, Forall_forall. intros k Hk. apply in_seq in Hk.
  apply slice_length. pose proof (Nat.Div0.mul_div_le (length b) 8). lia.
Qed.

Lemma take_until_marker_Forall (P : bits -> Prop) (gs : list bits) :
  Forall P gs -> Forall (fun g => P g /\ g <> END_MARKER) (take_until_marker gs).
Proof.
  induction 1 as [|g gs Hg _ IH]; cbn [take_until_marker]; [constructor|].
  destruct (bits_eqb g END_MARKER) eqn:E; constructor; [|exact IH].
  split; [exact Hg|]. now apply bits_eqb_neq.
Qed.

Lemma take_until_marker_length (gs : list bits) :
  length (take_until_marker gs) <= length gs.
Proof.
  induction gs as [|g gs IH]; cbn [take_until_marker length]; [lia|].
  destruct (bits_eqb g END_MARKER); cbn [length]; lia.
Qed.

(** The decoder returns only non-zero bytes. *)
Lemma decode_binary_bytes (b : bits) : payload_ok (decode_binary b).
Proof.
  rewrite decode_binary_fromBits. unfold fromBits_spec, payload_ok.
  apply Forall_map.
  eapply Forall_impl; [|apply take_until_marker_Forall, groups_complete].
  cbn beta. intros g [Hl Hn]. pose proof (int2_byte g Hl).
  destruct (N.eq_dec (int2 g) 0) as [E|E]; [|lia].
  exfalso. apply Hn. now apply int2_zero.
Qed.

(** The decoder returns at most one character per eight bits. *)
Lemma decode_binary_length (b : bits) : 8 * length (decode_binary b) <= length b.
Proof.
  rewrite decode_binary_fromBits. unfold fromBits_spec. rewrite length_map.
  pose proof (take_until_marker_length (groups b)) as H. rewrite groups_length in H.
  pose proof (Nat.Div0.mul_div_le (length b) 8). lia.
Qed.

(** X1. Whatever the text and whichever of the three methods, every
    character of the extracted message is a non-zero byte (U+0001..U+00FF). *)
Theorem extracted_chars_are_bytes (stego_text method : str) :
  supported method ->
  exists message,
    extract_message stego_text method = Ok message /\
    Forall (fun c => (0 < c < 256)%N) message.
Proof.
  intros H. eexists. split; [now apply extract_message_decodes|].
  apply decode_binary_bytes.
Qed.

Lemma extracted_chars_are_bytes_witness :
  exists message,
    extract_message (lit "Any Text at ALL, even This one, Is read as bits") (lit "binary")
      = Ok message /\
    Forall (fun c => (0 < c < 256)%N) message.
Proof.
  apply extracted_chars_are_bytes. right. right. reflexivity.
Defined.

(** X2. A secret message with a NUL character or a character above
    U+00FF is never what an extraction returns, from any text and with any of
    the three methods; in particular such a message does not survive
    embedding and extracting. *)
Theorem non_byte_message_never_extracted (stego_text secret_message method : str) :
  supported method ->
  Exists not_a_byte secret_message ->
  extract_message stego_text method <> Ok secret_message.
Proof.
  intros Hm Hex E. rewrite (extract_message_decodes _ _ Hm) in E.
  injection E as E. pose proof (decode_binary_bytes (recovered_bits stego_text method)) as Hb.
  rewrite E in Hb. unfold payload_ok in Hb. rewrite Forall_forall in Hb.
  apply Exists_exists in Hex as (c & Hin & Hc). specialize (Hb c Hin).
  destruct Hc; lia.
Qed.

Lemma non_byte_message_never_extracted_witness :
  extract_message (_embed_binary (lit "a cover text") [8364%N]) (lit "binary")
  <> Ok [8364%N].
Proof.
  apply non_byte_message_never_extracted.
  - right. right. reflexivity.
  - constructor. right. vm_compute. discriminate.
Defined.

Lemma sep_bits_length (s : str) : length (sep_bits s) = length (filter is_sep s).
Proof.
  unfold sep_bits, is_sep, SPACE, TAB.
  induction s as [|c s IH]; cbn [flat_map filter]; [reflexivity|].
  rewrite length_app, IH.
  destruct (N.eqb_spec c 0x09) as [->|Ht]; [reflexivity|].
  destruct (N.eqb_spec c 0x20) as [->|Hs]; reflexivity.
Qed.

Lemma fold_synonym_bits_length (words : list str) :
  length (flat_map read_word words) <= length words.
Proof.
  induction words as [|w ws IH]; cbn [flat_map length]; [lia|].
  rewrite length_app. unfold read_word at 1. destruct (word_bit w); cbn [length]; lia.
Qed.

Lemma binary_bits_length (stego_text : str) :
  length (binary_bits stego_text) = length (split stego_text).
Proof.
  unfold binary_bits. rewrite fold_binary_bit_step. cbn [app].
  induction (split stego_text) as [|w ws IH]; cbn [flat_map length app]; [reflexivity|].
  now rewrite IH.
Qed.

(** X3. An extraction returns at most one character per eight carriers:
    per eight space or tab characters of the text with the whitespace method,
    per eight words with the synonym and the capitalisation method (which
    reads exactly one bit from every word). A text with fewer than eight
    carriers gives the empty message. *)
Theorem extraction_capacity (stego_text : str) :
  8 * length (_extract_whitespace stego_text) <= length (filter is_sep stego_text) /\
  8 * length (_extract_synonym stego_text) <= length (split stego_text) /\
  8 * length (_extract_binary stego_text) <= length (split stego_text) /\
  length (binary_bits stego_text) = length (split stego_text).
Proof.
  unfold _extract_whitespace, _extract_synonym, _extract_binary.
  split; [|split; [|split]].
  - pose proof (decode_binary_length (whitespace_bits stego_text)) as H.
    now rewrite <- sep_bits_length, <- whitespace_bits_sep_bits.
  - pose proof (decode_binary_length (synonym_bits stego_text)) as H.
    unfold synonym_bits in H at 2. rewrite fold_synonym_bit_step in H. cbn [app] in H.
    pose proof (fold_synonym_bits_length (split stego_text)). lia.
  - pose proof (decode_binary_length (binary_bits stego_text)) as H.
    now rewrite binary_bits_length in H.
  - apply binary_bits_length.
Qed.

(** ** The whitespace extractor on text without tabs *)

Lemma decode_binary_zeros (n : nat) : decode_binary (repeat false n) = [].
Proof.
  destruct (Nat.lt_ge_cases n 8) as [H|H].
  - rewrite decode_binary_fromBits. unfold fromBits_spec, groups.
    rewrite repeat_length, Nat.div_small by exact H. reflexivity.
  - replace n with (8 + (n - 8)) by lia. rewrite repeat_app.
    rewrite decode_binary_cons by reflexivity. reflexivity.
Qed.

Lemma sep_bits_notab (s : str) :
  notab s -> sep_bits s = repeat false (length (sep_bits s)).
Proof.
  unfold notab, sep_bits. induction s as [|c s IH]; cbn [forallb flat_map]; [reflexivity|].
  intros H. apply andb_prop in H as [Hc Hs]. apply negb_true_iff in Hc.
  rewrite Hc, length_app, repeat_app, <- (IH Hs).
  now destruct (c =? SPACE)%N.
Qed.

Lemma _extract_whitespace_notab (s : str) : notab s -> _extract_whitespace s = [].
Proof.
  intros H. unfold _extract_whitespace.
  rewrite whitespace_bits_sep_bits, (sep_bits_notab s H). apply decode_binary_zeros.
Qed.

Lemma notab_app (a b : str) : notab a -> notab b -> notab (a ++ b).
Proof.
  unfold notab. intros Ha Hb. rewrite forallb_app. now apply andb_true_intro.
Qed.

Lemma notab_join (ws : list str) : Forall notab ws -> notab (join [SPACE] ws).
Proof.
  induction 1 as [|w ws Hw Hws IH]; [reflexivity|].
  cbn [join]. destruct ws; [exact Hw|].
  apply notab_app; [exact Hw|]. now apply notab_app.
Qed.

Lemma nosep_notab (w : str) : nosep w -> notab w.
Proof.
  unfold nosep, notab, is_sep. rewrite !forallb_forall. intros H c Hc.
  specialize (H c Hc). apply negb_true_iff, orb_false_elim in H as [_ H]. now rewrite H.
Qed.

Lemma notab_filter (q : char -> bool) (w : str) : notab w -> notab (filter q w).
Proof. apply forallb_filter. Qed.

Lemma table_notab_ok : table_notab = true.
Proof. vm_compute. reflexivity. Qed.

Lemma synonym_word_notab (b : bool) (w : str) : notab w -> notab (synonym_word b w).
Proof.
  intros Hw. unfold synonym_word.
  destruct (lookup (clean w) synonyms) as [options|] eqn:El; [|exact Hw]. cbv zeta.
  pose proof table_notab_ok as Ht. unfold table_notab in Ht. rewrite forallb_forall in Ht.
  specialize (Ht _ (lookup_In _ _ El)). cbn [snd] in Ht. rewrite forallb_forall in Ht.
  assert (Hb : In b [false; true]) by (destruct b; cbn; auto).
  specialize (Ht b Hb). apply andb_prop in Ht as [H1 H2].
  apply notab_app; [|now apply notab_filter].
  now destruct (match w with c :: _ => isupper c | [] => false end).
Qed.

Lemma _embed_synonym_notab (cover_text secret_message : str) :
  notab (_embed_synonym cover_text secret_message).
Proof.
  rewrite _embed_synonym_words. apply notab_join.
  apply enc_Forall.
  - eapply Forall_impl; [|apply split_nosep]. intros w Hw.
    split; [now apply nosep_notab|]. intros _ b. now apply synonym_word_notab, nosep_notab.
  - now intros [].
Qed.

(** X4. The whitespace extractor finds nothing in what the synonym
    embedder writes, for every cover and every secret message: the text has
    no tab, so every recovered bit is 0. *)
Theorem whitespace_extractor_on_synonym_text (cover_text secret_message : str) :
  embed_message cover_text secret_message (lit "synonym") =
    Ok (_embed_synonym cover_text secret_message) /\
  extract_message (_embed_synonym cover_text secret_message) (lit "whitespace") = Ok [].
Proof.
  split; [reflexivity|].
  change (Ok (_extract_whitespace (_embed_synonym cover_text secret_message)) = Ok []).
  f_equal. apply _extract_whitespace_notab, _embed_synonym_notab.
Qed.

Lemma plain_tables (c : char) :
  plain_char c = true ->
  forallb (fun d => negb (d =? TAB)%N) (upper_char c) = true /\
  (lower_char c =? TAB)%N = false.
Proof.
  intros H. unfold plain_char in H. apply andb_prop in H as [Hc Ht]. apply N.ltb_lt in Hc.
  pose (P := fun c : N =>
    implb (negb (c =? TAB)%N)
      (forallb (fun d => negb (d =? TAB)%N) (upper_char c) && negb (lower_char c =? TAB)%N)).
  assert (HP : P c = true) by (apply forall_bytes; [vm_compute; reflexivity|exact Hc]).
  unfold P in HP. rewrite Ht in HP. cbn [implb] in HP. apply andb_prop in HP as [H1 H2].
  apply negb_true_iff in H2. now split.
Qed.

Lemma notab_lower (s : str) : forallb plain_char s = true -> notab (lower s).
Proof.
  unfold notab, lower. induction s as [|c s IH]; cbn [forallb map]; [reflexivity|].
  intros H. apply andb_prop in H as [Hc Hs].
  destruct (plain_tables c Hc) as [_ Hl]. now rewrite Hl, (IH Hs).
Qed.

Lemma notab_upper (s : str) : forallb plain_char s = true -> notab (upper s).
Proof.
  unfold notab, upper. induction s as [|c s IH]; cbn [forallb flat_map]; [reflexivity|].
  intros H. apply andb_prop in H as [Hc Hs].
  destruct (plain_tables c Hc) as [Hu _]. rewrite forallb_app.
  apply andb_true_intro. split; [exact Hu|exact (IH Hs)].
Qed.

Lemma plain_notab (s : str) : forallb plain_char s = true -> notab s.
Proof.
  unfold notab. rewrite !forallb_forall. intros H c Hc. specialize (H c Hc).
  unfold plain_char in H. now apply andb_prop in H as [_ ?].
Qed.

Lemma binary_word_notab (b : bool) (w : str) :
  forallb plain_char w = true -> notab (binary_word b w).
Proof.
  intros Hw. unfold binary_word. cbv zeta.
  pose proof (forallb_filter plain_char isalpha w Hw) as Hclean.
  pose proof (plain_notab _ (forallb_filter plain_char (fun c => negb (isalpha c)) w Hw))
    as Hpunct.
  apply notab_app; [|exact Hpunct]. destruct b; [|now apply notab_lower].
  destruct (filter isalpha w) as [|c r]; [reflexivity|].
  destruct (1 <? length (c :: r)); [|now apply notab_upper].
  apply notab_app; [apply notab_upper|apply notab_lower].
  - cbn [forallb] in *. apply andb_prop in Hclean as [H1 _]. now rewrite H1.
  - now apply forallb_tail in Hclean.
Qed.

Lemma word_char_plain (w : str) : forallb word_char w = true -> forallb plain_char w = true.
Proof.
  rewrite !forallb_forall. intros H c Hc. apply H, word_char_spec in Hc as [Hlt Hs].
  unfold plain_char. apply andb_true_intro. split; [now apply N.ltb_lt|].
  apply negb_true_iff. destruct (N.eqb_spec c TAB) as [->|]; [discriminate Hs|reflexivity].
Qed.

Lemma _embed_binary_notab (cover_text secret_message : str) :
  latin1 cover_text -> notab (_embed_binary cover_text secret_message).
Proof.
  intros Hl. rewrite _embed_binary_words. apply notab_join.
  apply enc_Forall.
  - eapply Forall_impl; [|apply (split_word_chars cover_text Hl)]. intros w [_ Hw].
    apply word_char_plain in Hw.
    split; [now apply plain_notab|]. intros _ b. now apply binary_word_notab.
  - now intros [].
Qed.

(** X5. The whitespace extractor finds nothing in what the
    capitalisation embedder writes, for every cover of characters in
    U+0000..U+00FF and every secret message. *)
Theorem whitespace_extractor_on_binary_text (cover_text secret_message : str) :
  latin1 cover_text ->
  embed_message cover_text secret_message (lit "binary") =
    Ok (_embed_binary cover_text secret_message) /\
  extract_message (_embed_binary cover_text secret_message) (lit "whitespace") = Ok [].
Proof.
  intros Hl. split; [reflexivity|].
  change (Ok (_extract_whitespace (_embed_binary cover_text secret_message)) = Ok []).
  f_equal. now apply _extract_whitespace_notab, _embed_binary_notab.
Qed.

Lemma whitespace_extractor_on_binary_text_witness :
  embed_message (lit "Some cover, text!") (lit "Hi") (lit "binary") =
    Ok (_embed_binary (lit "Some cover, text!") (lit "Hi")) /\
  extract_message (_embed_binary (lit "Some cover, text!") (lit "Hi")) (lit "whitespace")
    = Ok [].
Proof.
  apply whitespace_extractor_on_binary_text.
  unfold latin1. vm_compute. repeat constructor.
Defined.

(** ** The words of a whitespace text *)

Lemma extend_words_length (cover_words : list str) (binary_message : bits) (fuel : nat) :
  forall words ws,
  (len binary_message - (len words - 1) <= Z.of_nat fuel)%Z ->
  extend_words fuel cover_words binary_message words = Ok ws ->
  length ws = Nat.max (length words) (length binary_message + 1).
Proof.
  induction fuel as [|fuel IH]; intros words ws Hfuel; cbn [extend_words].
  - intros [= <-]. unfold len in Hfuel. lia.
  - destruct (Z.ltb_spec (len words - 1) (len binary_message)) as [Hlt|Hge].
    + destruct (len cover_words =? 0)%Z; [discriminate|].
      destruct (nth_error words _) as [w|]; [|discriminate].
      intros E. apply IH in E.
      * rewrite E, length_app. cbn [length]. unfold len in Hlt. lia.
      * rewrite len_app. unfold len at 3. cbn [length]. lia.
    + intros [= <-]. unfold len in Hge. lia.
Qed.

Lemma isspace_sep_char (binary_message : bits) (i : nat) :
  isspace (sep_char binary_message i) = true.
Proof. apply is_sep_isspace, is_sep_sep_char. Qed.

(** [split()] gives back the words that were woven. *)
Lemma split_weave (binary_message : bits) (words : list str) (i : nat) :
  Forall (fun w => w <> [] /\ nospace w) words ->
  split (weave binary_message i words) = words.
Proof.
  unfold split. intros H. revert i.
  induction H as [|w ws [Hne Hw] Hws IH]; intros i; [reflexivity|].
  cbn [weave]. destruct ws as [|w' ws'].
  - rewrite <- (app_nil_r w) at 1. rewrite split_from_word by exact Hw.
    cbn. now destruct w.
  - rewrite split_from_word by exact Hw. cbn [app split_from].
    rewrite isspace_sep_char. destruct w; [contradiction|]. cbn [app]. now rewrite IH.
Qed.

Lemma extended_words (cover_text : str) (extra : list str) :
  Forall (fun w => In w (split cover_text)) extra ->
  Forall (fun w => w <> [] /\ nospace w) (split cover_text ++ extra).
Proof.
  intros H. pose proof (split_words cover_text) as Hs.
  apply Forall_app. split; [exact Hs|].
  rewrite Forall_forall in *. intros w Hw. apply Hs, H, Hw.
Qed.

(** What the whitespace embedder returns, with the number of words. *)
Lemma _embed_whitespace_exact (cover_text secret_message : str) :
  split cover_text <> [] ->
  exists extra,
    Forall (fun w => In w (split cover_text)) extra /\
    length (split cover_text ++ extra) =
      Nat.max (length (split cover_text)) (length (to_binary secret_message) + 1) /\
    _embed_whitespace cover_text secret_message =
    Ok (weave (to_binary secret_message) 0 (split cover_text ++ extra)).
Proof.
  intros Hne. unfold _embed_whitespace.
  set (fuel := Z.to_nat (len (to_binary secret_message) - (len (split cover_text) - 1))).
  destruct (extend_words_spec (split cover_text) (to_binary secret_message) fuel
              Hne (split cover_text)) as (ws & Hws & (extra & -> & Hextra) & _).
  - exists []. split; [now rewrite app_nil_r|constructor].
  - unfold fuel. lia.
  - exists extra. split; [exact Hextra|]. split.
    + apply (extend_words_length (split cover_text) (to_binary secret_message) fuel);
        [unfold fuel; lia|exact Hws].
    + cbv zeta. rewrite Hws. cbn [bind]. now rewrite stego_text_weave.
Qed.

Lemma to_binary_bytes_length (secret_message : str) :
  Forall (fun c => (c < 256)%N) secret_message ->
  length (to_binary secret_message) = 8 * length secret_message + 8.
Proof.
  unfold to_binary. rewrite length_app. intros H.
  assert (E : length (flat_map format_08b secret_message) = 8 * length secret_message).
  { induction H as [|c s Hc _ IH]; [reflexivity|].
    cbn [flat_map length]. rewrite length_app, IH.
    destruct (format_08b_byte c Hc) as (Hl & _). lia. }
  rewrite E. reflexivity.
Qed.

(** X6. On a cover of at least one word and a message of bytes, the text
    the whitespace embedder returns has exactly the larger of the cover's
    number of words and [8 * len(message) + 9] words; when the cover has that
    many words, it has exactly the words of the cover (only the separators
    between them are rewritten). *)
Theorem whitespace_word_count (cover_text secret_message : str) :
  split cover_text <> [] ->
  Forall (fun c => (c < 256)%N) secret_message ->
  exists stego_text,
    embed_message cover_text secret_message (lit "whitespace") = Ok stego_text /\
    length (split stego_text) =
      Nat.max (length (split cover_text)) (8 * length secret_message + 9) /\
    (8 * length secret_message + 9 <= length (split cover_text) ->
     split stego_text = split cover_text).
Proof.
  intros Hne Hb.
  destruct (_embed_whitespace_exact cover_text secret_message Hne)
    as (extra & Hextra & Hlen & E).
  rewrite (to_binary_bytes_length _ Hb) in Hlen.
  eexists. split; [exact E|].
  rewrite split_weave by now apply extended_words.
  split; [rewrite Hlen; lia|].
  intros Hbig. rewrite length_app in Hlen.
  assert (Hz : length extra = 0) by lia.
  apply length_zero_iff_nil in Hz. rewrite Hz. apply app_nil_r.
Qed.

Lemma whitespace_word_count_witness :
  exists stego_text,
    embed_message (lit "a b c") (lit "Hi") (lit "whitespace") = Ok stego_text /\
    length (split stego_text) = Nat.max (length (split (lit "a b c"))) (8 * length (lit "Hi") + 9) /\
    (8 * length (lit "Hi") + 9 <= length (split (lit "a b c")) ->
     split stego_text = split (lit "a b c")).
Proof.
  apply whitespace_word_count.
  - vm_compute. discriminate.
  - repeat constructor.
Defined.

(** X7. With one of the three methods, [embed_message] raises in exactly
    one case: method whitespace on a cover without words, and then it is the
    division by zero; in every other case it returns a text. *)
Theorem embed_message_raises_iff (cover_text secret_message method : str) :
  supported method ->
  ((exists e, embed_message cover_text secret_message method = Raise e) <->
   method = lit "whitespace" /\ split cover_text = []) /\
  (forall e, embed_message cover_text secret_message method = Raise e ->
             e = ZeroDivisionError).
Proof.
  intros [ -> | [ -> | -> ] ].
  - change (embed_message cover_text secret_message (lit "whitespace"))
      with (_embed_whitespace cover_text secret_message).
    destruct (split cover_text) as [|w ws] eqn:Es.
    + rewrite (_embed_whitespace_no_words _ _ Es). split.
      * split; [now intros _|intros _; now eexists].
      * now intros e [= <-].
    + destruct (_embed_whitespace_returns cover_text secret_message) as (x & _ & _ & E).
      { rewrite Es. discriminate. }
      rewrite Es in E. rewrite E. split.
      * split; [intros [e He]; discriminate He|intros [_ H]; discriminate H].
      * intros e He. discriminate He.
  - split; [split|].
    + intros [e He]. discriminate He.
    + intros [H _]. discriminate H.
    + intros e He. discriminate He.
  - split; [split|].
    + intros [e He]. discriminate He.
    + intros [H _]. discriminate H.
    + intros e He. discriminate He.
Qed.

Lemma embed_message_raises_iff_witness :
  ((exists e, embed_message (lit " ") (lit "Hi") (lit "whitespace") = Raise e) <->
   lit "whitespace" = lit "whitespace" /\ split (lit " ") = []) /\
  (forall e, embed_message (lit " ") (lit "Hi") (lit "whitespace") = Raise e ->
             e = ZeroDivisionError).
Proof.
  apply embed_message_raises_iff. left. reflexivity.
Defined.

(** The whitespace round trip on the two private functions. *)
Lemma _extract_embed_whitespace (cover_text payload : str) :
  split cover_text <> [] -> payload_ok payload ->
  exists stego_text,
    _embed_whitespace cover_text payload = Ok stego_text /\
    _extract_whitespace stego_text = payload.
Proof.
  intros Hne Hp.
  destruct (_embed_whitespace_returns cover_text payload Hne) as (extra & Hextra & Hgaps & E).
  eexists. split; [exact E|].
  unfold _extract_whitespace.
  rewrite whitespace_bits_sep_bits.
  rewrite sep_bits_weave by now apply extended_nosep.
  rewrite map_nth_seq_pad by exact Hgaps.
  now apply decode_payload.
Qed.

(** ** More on the recommender *)

Lemma choose_method_cases (wc cc sc : nat) (cx : float) :
  (wc < 30 /\ choose_method wc cc sc cx = (lit "whitespace", 0.95%float)) \/
  (30 <= wc /\ choose_method wc cc sc cx = (lit "synonym", 0.9%float)) \/
  (30 <= wc /\ choose_method wc cc sc cx = (lit "synonym", 0.85%float)) \/
  (200 < wc /\ 1000 < cc /\ choose_method wc cc sc cx = (lit "binary", 0.8%float)) \/
  (30 <= wc /\ choose_method wc cc sc cx = (lit "whitespace", 0.75%float)).
Proof.
  unfold choose_method.
  destruct (Nat.ltb_spec wc 30) as [H|H]; [now left|].
  destruct (_ <? _)%float; [right; now left|].
  destruct (_ <? _)%float; [right; right; now left|].
  destruct (Nat.ltb_spec 200 wc) as [H2|H2]; cbn [andb]; [|now repeat right].
  destruct (Nat.ltb_spec 1000 cc) as [H3|H3]; [|now repeat right].
  right. right. right. now left.
Qed.

(** The fields of an analysis, in terms of the rule chain. *)
Lemma analysis_fields (text : str) :
  exists m c,
    choose_method (length (split text)) (length text) (function_word_count text)
      (_calculate_text_complexity text) = (m, c) /\
    word_count (analyze_text_for_steganography text) = length (split text) /\
    recommended_method (analyze_text_for_steganography text) = m /\
    confidence (analyze_text_for_steganography text) = c /\
    synonym_word_count (analyze_text_for_steganography text) = function_word_count text /\
    estimated_capacity (analyze_text_for_steganography text) =
      (if str_eqb m (lit "whitespace") then length (split text) / 3
       else if str_eqb m (lit "synonym")
       then Nat.min (function_word_count text) (length (split text) / 4)
       else length (split text) / 5).
Proof.
  unfold analyze_text_for_steganography. fold (function_word_count text).
  destruct (choose_method _ _ _ _) as [m c] eqn:E.
  exists m, c. cbn [word_count recommended_method confidence estimated_capacity
                    synonym_word_count].
  repeat split; reflexivity.
Qed.

Lemma function_word_count_le (text : str) : function_word_count text <= length (split text).
Proof. apply filter_length_le. Qed.

(** X8. The method the recommender returns is always one of the three
    that [embed_message] accepts, with one of five confidences; embedding
    into the analysed text with the recommended method returns a text for
    every secret message, provided the text has a word. *)
Theorem recommendation_is_usable (text : str) :
  supported (recommended_method (analyze_text_for_steganography text)) /\
  In (confidence (analyze_text_for_steganography text))
     [0.95; 0.9; 0.85; 0.8; 0.75]%float /\
  (split text <> [] ->
   forall secret_message, exists stego_text,
     embed_message text secret_message
       (recommended_method (analyze_text_for_steganography text)) = Ok stego_text).
Proof.
  destruct (analysis_fields text) as (m & c & E & _ & -> & -> & _).
  destruct (choose_method_cases (length (split text)) (length text)
              (function_word_count text) (_calculate_text_complexity text))
    as [[_ H]|[[_ H]|[[_ H]|[(_ & _ & H)|[_ H]]]]];
    rewrite H in E; injection E as <- <-.
  all: split; [unfold supported; auto|].
  all: split; [cbn; auto 6|].
  all: intros Hne secret_message.
  2, 3: eexists; reflexivity.
  2: eexists; reflexivity.
  all: destruct (_embed_whitespace_returns text secret_message Hne) as (x & _ & _ & Hx);
    eexists; exact Hx.
Qed.

Lemma recommendation_is_usable_witness :
  exists stego_text,
    embed_message (lit "one two three") (lit "Hi")
      (recommended_method (analyze_text_for_steganography (lit "one two three")))
    = Ok stego_text.
Proof.
  apply (proj2 (proj2 (recommendation_is_usable (lit "one two three")))).
  vm_compute. discriminate.
Defined.

(** X9. The estimated capacity never exceeds a third of the word count,
    and is 0 for a text of fewer than three words; the function-word count
    never exceeds the word count; and when the method is synonym the capacity
    exceeds neither the function-word count nor a quarter of the word
    count. *)
Theorem capacity_bounds (text : str) :
  estimated_capacity (analyze_text_for_steganography text) <= length (split text) / 3 /\
  synonym_word_count (analyze_text_for_steganography text) <= length (split text) /\
  (length (split text) < 3 -> estimated_capacity (analyze_text_for_steganography text) = 0) /\
  (recommended_method (analyze_text_for_steganography text) = lit "synonym" ->
   estimated_capacity (analyze_text_for_steganography text) <=
     synonym_word_count (analyze_text_for_steganography text) /\
   estimated_capacity (analyze_text_for_steganography text) <= length (split text) / 4).
Proof.
  destruct (analysis_fields text) as (m & c & E & _ & -> & _ & -> & ->).
  pose proof (function_word_count_le text) as Hsc.
  set (wc := length (split text)) in *.
  assert (H4 : wc / 4 <= wc / 3)
    by (apply Nat.div_le_compat_l; lia).
  assert (H5 : wc / 5 <= wc / 3)
    by (apply Nat.div_le_compat_l; lia).
  split; [|split; [exact Hsc|split]].
  - destruct (str_eqb m (lit "whitespace")); [lia|].
    destruct (str_eqb m (lit "synonym")); lia.
  - intros Hw. assert (H3 : wc / 3 = 0) by (apply Nat.div_small; exact Hw).
    destruct (str_eqb m (lit "whitespace")); [lia|].
    destruct (str_eqb m (lit "synonym")); lia.
  - intros ->. cbn [str_eqb]. change (str_eqb (lit "synonym") (lit "whitespace")) with false.
    change (str_eqb (lit "synonym") (lit "synonym")) with true. cbv iota. lia.
Qed.

Lemma capacity_bounds_witness :
  estimated_capacity (analyze_text_for_steganography (lit "only two")) = 0.
Proof.
  apply (proj1 (proj2 (proj2 (capacity_bounds (lit "only two"))))).
  vm_compute. lia.
Defined.

(** X10. The overall assessment in the security insights of an analysis
    is never the three-star text: it is the five-star text when the
    confidence is 0.95, 0.9 or 0.85, and the four-star text when it is 0.8
    (method binary) or 0.75 (the default rule). *)
Theorem security_insights_stars (text : str) :
  (item (lit "overall_assessment") (security_insights text) = Some FIVE_STARS /\
   In (confidence (analyze_text_for_steganography text)) [0.95; 0.9; 0.85]%float) \/
  (item (lit "overall_assessment") (security_insights text) = Some FOUR_STARS /\
   In (confidence (analyze_text_for_steganography text)) [0.8; 0.75]%float).
Proof.
  unfold security_insights.
  destruct (analysis_fields text) as (m & c & E & _ & -> & -> & _).
  destruct (choose_method_cases (length (split text)) (length text)
              (function_word_count text) (_calculate_text_complexity text))
    as [[_ H]|[[_ H]|[[_ H]|[(_ & _ & H)|[_ H]]]]];
    rewrite H in E; injection E as <- <-.
  1, 2, 3: left; split; [reflexivity|cbn; auto].
  all: right; split; [reflexivity|cbn; auto].
Qed.

Lemma analysis_short (text : str) :
  length (split text) < 30 ->
  recommended_method (analyze_text_for_steganography text) = lit "whitespace" /\
  confidence (analyze_text_for_steganography text) = 0.95%float /\
  estimated_capacity (analyze_text_for_steganography text) = length (split text) / 3.
Proof.
  intros H. destruct (analysis_fields text) as (m & c & E & _ & -> & -> & _ & ->).
  rewrite choose_method_short in E by exact H. injection E as <- <-.
  repeat split; reflexivity.
Qed.

(** ** Embedding optimisation *)

Lemma _calculate_security_level_high (strength : str) (confidence : float) :
  _calculate_security_level strength confidence = lit "high" ->
  strength = lit "low" /\ (0.8 <? confidence)%float = true.
Proof.
  unfold _calculate_security_level.
  destruct (str_eqb strength (lit "low")) eqn:E1; cbn [andb].
  - apply str_eqb_eq in E1.
    destruct (0.8 <? confidence)%float; [now split|].
    destruct (0.6 <? confidence)%float; [discriminate|].
    destruct (str_eqb strength (lit "medium")); cbn [andb].
    + destruct (0.7 <? confidence)%float; [discriminate|].
      destruct (0.5 <? confidence)%float; [discriminate|].
      destruct (str_eqb strength (lit "high")); discriminate.
    + destruct (str_eqb strength (lit "high")); discriminate.
  - destruct (str_eqb strength (lit "medium")); cbn [andb].
    + destruct (0.7 <? confidence)%float; [discriminate|].
      destruct (0.5 <? confidence)%float; [discriminate|].
      destruct (str_eqb strength (lit "high")); discriminate.
    + destruct (str_eqb strength (lit "high")); discriminate.
Qed.

(** X11. When the estimated capacity of the cover is 0, the embedding
    strength is low and the utilisation 0 however long the secret is (the
    division is not made); this is so for every cover of fewer than three
    words, whose security level is then high. *)
Theorem zero_capacity_optimisation (cover_media secret_data : str) :
  (optimized_capacity (optimize_embedding cover_media secret_data) = 0 ->
   embedding_strength (optimize_embedding cover_media secret_data) = lit "low" /\
   utilization (optimize_embedding cover_media secret_data) = 0%float) /\
  (length (split cover_media) < 3 ->
   optimized_capacity (optimize_embedding cover_media secret_data) = 0 /\
   embedding_strength (optimize_embedding cover_media secret_data) = lit "low" /\
   security_level (optimize_embedding cover_media secret_data) = lit "high").
Proof.
  unfold optimize_embedding.
  cbn [optimized_capacity embedding_strength utilization security_level].
  split.
  - intros ->. cbn [Nat.ltb Nat.leb]. split; reflexivity.
  - intros H. destruct (analysis_short cover_media) as (_ & -> & ->); [lia|].
    rewrite (Nat.div_small _ 3 H). cbn [Nat.ltb Nat.leb]. repeat split; reflexivity.
Qed.

Lemma zero_capacity_optimisation_witness :
  optimized_capacity
    (optimize_embedding (lit "only two") (lit "a rather long secret message")) = 0 /\
  embedding_strength
    (optimize_embedding (lit "only two") (lit "a rather long secret message")) = lit "low" /\
  security_level
    (optimize_embedding (lit "only two") (lit "a rather long secret message")) = lit "high".
Proof.
  apply (proj2 (zero_capacity_optimisation (lit "only two")
                  (lit "a rather long secret message"))).
  vm_compute. lia.
Defined.

(** X12. The security level of an optimisation is high only when the
    embedding strength is low and the confidence is above 0.8. *)
Theorem high_security_needs_low_strength (cover_media secret_data : str) :
  security_level (optimize_embedding cover_media secret_data) = lit "high" ->
  embedding_strength (optimize_embedding cover_media secret_data) = lit "low" /\
  (0.8 <? optimized_confidence (optimize_embedding cover_media secret_data))%float = true.
Proof.
  unfold optimize_embedding.
  cbn [embedding_strength security_level optimized_confidence].
  apply _calculate_security_level_high.
Qed.

Lemma high_security_needs_low_strength_witness :
  embedding_strength (optimize_embedding (lit "only two") (lit "secret")) = lit "low" /\
  (0.8 <? optimized_confidence (optimize_embedding (lit "only two") (lit "secret")))%float
    = true.
Proof.
  apply high_security_needs_low_strength. vm_compute. reflexivity.
Defined.

(** ** The built-in heuristic *)

(** X13. [TextSteganography.analyze_text] recommends whitespace or
    synonym, never binary, and on a text of fewer than 30 words it recommends
    what the recommender of [AIAnalyzer] recommends. *)
Theorem builtin_heuristic (text : str) :
  (analysis_recommended_method (analyze_text text) = lit "whitespace" \/
   analysis_recommended_method (analyze_text text) = lit "synonym") /\
  (length (split text) < 30 ->
   analysis_recommended_method (analyze_text text) =
   recommended_method (analyze_text_for_steganography text)).
Proof.
  unfold analyze_text. cbn [analysis_recommended_method]. split.
  - destruct (length (split text) <? 50); auto.
  - intros H. destruct (analysis_short text H) as (-> & _).
    now replace (length (split text) <? 50) with true by (symmetry; apply Nat.ltb_lt; lia).
Qed.

Lemma builtin_heuristic_witness :
  analysis_recommended_method (analyze_text (lit "a short text")) =
  recommended_method (analyze_text_for_steganography (lit "a short text")).
Proof.
  apply (proj2 (builtin_heuristic (lit "a short text"))). vm_compute. lia.
Defined.

(** ** The simulated detector *)

(** X14. Whatever the drawn score, the detector's fields agree: without
    a detection the action is no_action, the risk low and the assessment the
    no-indicators text; with a detection the risk is critical, high or medium
    and the assessment is the text that [risk_levels] holds for that risk
    (the low-risk fallback text is never used). *)
Theorem detection_is_consistent (detection_score : float) :
  (steganography_detected (detect_steganography detection_score) = false /\
   recommended_action (detect_steganography detection_score) = lit "no_action" /\
   risk_level (detect_steganography detection_score) = lit "low" /\
   assessment (detect_steganography detection_score) =
     lit "No significant steganographic indicators detected") \/
  (steganography_detected (detect_steganography detection_score) = true /\
   In (risk_level (detect_steganography detection_score),
       recommended_action (detect_steganography detection_score))
      [(lit "critical", lit "immediate_investigation");
       (lit "high", lit "detailed_analysis"); (lit "medium", lit "monitor")] /\
   item (risk_level (detect_steganography detection_score)) risk_levels =
     Some (assessment (detect_steganography detection_score))).
Proof.
  unfold detect_steganography, _generate_detection_insights_assessment.
  destruct (0.6 <? detection_score)%float; cbn [negb].
  - right. destruct (0.9 <? detection_score)%float;
      [|destruct (0.8 <? detection_score)%float];
      cbn [steganography_detected risk_level recommended_action assessment];
      (split; [reflexivity|split; [cbn; auto|reflexivity]]).
  - left. cbn [steganography_detected risk_level recommended_action assessment].
    repeat split; reflexivity.
Qed.

(** ** The text routes *)

Lemma item_has_key (key v : str) (data : json_object) :
  item key data = Some v ->
  has_key key data = true /\ (forall d, get_default key d data = v) /\
  no_data (Some data) = false.
Proof.
  intros H. unfold has_key, get_default. rewrite H. repeat split.
  destruct data; [discriminate H|reflexivity].
Qed.

Lemma method_auto (data : json_object) :
  item (lit "method") data = None \/ item (lit "method") data = Some (lit "auto") ->
  get_default (lit "method") (lit "auto") data = lit "auto".
Proof. unfold get_default. now intros [-> | ->]. Qed.

(** On a value that [request.get_json()] returned, [POST /embed] answers 400
    exactly when the value is [None] or lacks one of the two fields. *)
Lemma embed_text_of_value (data : option json_object) :
  (snd (embed_text data) = 400 <->
   ~ (exists items cover_text secret_message,
        data = Some items /\
        item (lit "cover_text") items = Some cover_text /\
        item (lit "secret_message") items = Some secret_message)) /\
  In (snd (embed_text data)) [200; 400; 500].
Proof.
  destruct data as [items|]; cbn [embed_text].
  2:{ split; [|cbn; auto]. split; [|reflexivity].
      intros _ (items & c & s & H & _). discriminate H. }
  unfold has_key.
  destruct (item (lit "cover_text") items) as [c|] eqn:Ec.
  2:{ rewrite orb_true_r. cbn [orb snd]. split; [|cbn; auto]. split; [|reflexivity].
      intros _ (items' & c & s & [= <-] & H & _). congruence. }
  destruct (item (lit "secret_message") items) as [s|] eqn:Es.
  2:{ rewrite orb_true_r. cbn [snd]. split; [|cbn; auto]. split; [|reflexivity].
      intros _ (items' & c' & s & [= <-] & _ & H). congruence. }
  destruct (item_has_key _ _ _ Ec) as (_ & _ & ->). cbn [negb orb]. cbv zeta.
  destruct (embed_message _ _ _); cbn [snd].
  - split; [|cbn; auto]. split; [discriminate|].
    intros H. exfalso. apply H. now exists items, c, s.
  - split; [|cbn; auto]. split; [discriminate|].
    intros H. exfalso. apply H. now exists items, c, s.
Qed.

(** X15. [POST /embed] answers 400 exactly when [request.get_json()] returns
    a value (here [None], returned for the body [null], or an object with
    string values) and that value is [None] or lacks [cover_text] or
    [secret_message]. When [request.get_json()] raises, as the library does
    for an absent body, the answer is 500 with the text of the exception. In
    every case the answer is 200, 400 or 500. *)
Theorem embed_text_status (r : get_json) :
  (snd (embed_text_request r) = 400 <->
   exists data, r = Returns data /\
     ~ (exists items cover_text secret_message,
          data = Some items /\
          item (lit "cover_text") items = Some cover_text /\
          item (lit "secret_message") items = Some secret_message)) /\
  (forall text, embed_text_request (Raises text) = (ErrorBody (Message text), 500)) /\
  In (snd (embed_text_request r)) [200; 400; 500].
Proof.
  split; [|split; [reflexivity|]].
  - destruct r as [data|text]; cbn [embed_text_request].
    + destruct (embed_text_of_value data) as [H _]. split.
      * intros E. exists data. split; [reflexivity|]. now apply H.
      * intros (data' & [= <-] & N). now apply H.
    + cbn [snd]. split; [discriminate|]. intros (data & E & _). discriminate E.
  - destruct r as [data|text]; cbn [embed_text_request].
    + exact (proj2 (embed_text_of_value data)).
    + cbn. auto.
Qed.

(** X16. [POST /embed] with method auto (or without a method): when the
    cover has a word the answer is 200, with the text that [embed_message]
    returns for the recommended method; when it has none the answer is 500,
    from the division by zero of the whitespace embedder. *)
Theorem embed_text_auto (items : json_object) (cover_text secret_message : str) :
  item (lit "cover_text") items = Some cover_text ->
  item (lit "secret_message") items = Some secret_message ->
  item (lit "method") items = None \/ item (lit "method") items = Some (lit "auto") ->
  match split cover_text with
  | [] => embed_text (Some items) = (ErrorBody (OfException ZeroDivisionError), 500)
  | _ :: _ =>
      exists stego_text,
        embed_message cover_text secret_message
          (recommended_method (analyze_text_for_steganography cover_text)) = Ok stego_text /\
        embed_text (Some items) =
          (EmbedBody stego_text
             (recommended_method (analyze_text_for_steganography cover_text))
             (lit "Text embedded successfully"), 200)
  end.
Proof.
  intros Hc Hs Hm. unfold embed_text.
  destruct (item_has_key _ _ _ Hc) as (-> & -> & ->).
  destruct (item_has_key _ _ _ Hs) as (-> & -> & _).
  rewrite (method_auto _ Hm). cbn [negb orb]. cbv zeta.
  change (str_eqb (lit "auto") (lit "auto")) with true. cbv iota.
  destruct (split cover_text) as [|w ws] eqn:Es.
  - destruct (analysis_short cover_text) as (-> & _); [rewrite Es; cbn; lia|].
    change (embed_message cover_text secret_message (lit "whitespace"))
      with (_embed_whitespace cover_text secret_message).
    now rewrite (_embed_whitespace_no_words _ _ Es).
  - destruct (analysis_fields cover_text) as (m & c & E & _ & Hmeth & _).
    assert (Hne : split cover_text <> []) by (rewrite Es; discriminate).
    assert (Hok : exists stego_text, embed_message cover_text secret_message m = Ok stego_text).
    { destruct (choose_method_cases (length (split cover_text)) (length cover_text)
                  (function_word_count cover_text) (_calculate_text_complexity cover_text))
        as [[_ H]|[[_ H]|[[_ H]|[(_ & _ & H)|[_ H]]]]];
        rewrite H in E; injection E as <- _; try (eexists; reflexivity).
      all: destruct (_embed_whitespace_returns cover_text secret_message Hne)
             as (x & _ & _ & Hx); eexists; exact Hx. }
    rewrite Hmeth. destruct Hok as (stego_text & Hok). rewrite Hok.
    exists stego_text. split; reflexivity.
Qed.

Lemma embed_text_auto_witness :
  embed_text (Some [(lit "cover_text", lit "   "); (lit "secret_message", lit "Hi")]) =
  (ErrorBody (OfException ZeroDivisionError), 500).
Proof.
  apply (embed_text_auto
           [(lit "cover_text", lit "   "); (lit "secret_message", lit "Hi")]
           (lit "   ") (lit "Hi")).
  - reflexivity.
  - reflexivity.
  - left. reflexivity.
Defined.

Lemma found_nonempty (s : str) : found s = true <-> s <> [].
Proof. destruct s; cbn; split; congruence. Qed.

(** X17. A round trip through the two routes with method whitespace: for
    a cover with a word and a payload of non-zero bytes, [POST /embed]
    answers 200 with a text from which [POST /extract] answers 200 with the
    payload, unless the payload is empty, for which it answers 400. *)
Theorem routes_whitespace_roundtrip
    (embed_items : json_object) (cover_text payload : str) :
  item (lit "cover_text") embed_items = Some cover_text ->
  item (lit "secret_message") embed_items = Some payload ->
  item (lit "method") embed_items = Some (lit "whitespace") ->
  split cover_text <> [] ->
  payload_ok payload ->
  exists stego_text,
    embed_text (Some embed_items) =
      (EmbedBody stego_text (lit "whitespace") (lit "Text embedded successfully"), 200) /\
    forall extract_items : json_object,
      item (lit "stego_text") extract_items = Some stego_text ->
      item (lit "method") extract_items = Some (lit "whitespace") ->
      extract_text (Some extract_items) =
        match payload with
        | [] => (ErrorBody (Message (lit "Could not extract message from text")), 400)
        | _ :: _ =>
            (ExtractBody payload (lit "whitespace") 0.9%float
               (lit "Message extracted successfully"), 200)
        end.
Proof.
  intros Hc Hs Hm Hne Hp.
  destruct (_extract_embed_whitespace cover_text payload Hne Hp) as (stego & He & Hx).
  exists stego. split.
  - unfold embed_text.
    destruct (item_has_key _ _ _ Hc) as (-> & -> & ->).
    destruct (item_has_key _ _ _ Hs) as (-> & -> & _).
    destruct (item_has_key _ _ _ Hm) as (_ & -> & _).
    cbn [negb orb]. cbv zeta.
    change (str_eqb (lit "whitespace") (lit "auto")) with false. cbv iota.
    change (embed_message cover_text payload (lit "whitespace"))
      with (_embed_whitespace cover_text payload).
    now rewrite He.
  - intros extract_items Ht Hm'. unfold extract_text.
    destruct (item_has_key _ _ _ Ht) as (-> & -> & ->).
    destruct (item_has_key _ _ _ Hm') as (_ & -> & _).
    cbn [negb orb]. cbv zeta.
    change (str_eqb (lit "whitespace") (lit "auto")) with false. cbv iota.
    change (extract_message stego (lit "whitespace")) with (Ok (_extract_whitespace stego)).
    rewrite Hx. now destruct payload.
Qed.

Lemma routes_whitespace_roundtrip_witness :
  exists stego_text,
    embed_text (Some [(lit "cover_text", lit "a b c"); (lit "secret_message", lit "Hi");
                      (lit "method", lit "whitespace")]) =
      (EmbedBody stego_text (lit "whitespace") (lit "Text embedded successfully"), 200) /\
    extract_text (Some [(lit "stego_text", stego_text); (lit "method", lit "whitespace")]) =
      (ExtractBody (lit "Hi") (lit "whitespace") 0.9%float
         (lit "Message extracted successfully"), 200).
Proof.
  destruct (routes_whitespace_roundtrip
              [(lit "cover_text", lit "a b c"); (lit "secret_message", lit "Hi");
               (lit "method", lit "whitespace")]
              (lit "a b c") (lit "Hi"))
    as (stego_text & H1 & H2).
  - reflexivity.
  - reflexivity.
  - reflexivity.
  - vm_compute. discriminate.
  - repeat constructor.
  - exists stego_text. split; [exact H1|].
    apply (H2 [(lit "stego_text", stego_text); (lit "method", lit "whitespace")]);
      reflexivity.
Defined.

Lemma recommended_method_supported (text : str) :
  supported (recommended_method (analyze_text_for_steganography text)).
Proof.
  destruct (analysis_fields text) as (m & c & E & _ & -> & _).
  destruct (choose_method_cases (length (split text)) (length text)
              (function_word_count text) (_calculate_text_complexity text))
    as [[_ H]|[[_ H]|[[_ H]|[(_ & _ & H)|[_ H]]]]];
    rewrite H in E; injection E as <- _; unfold supported; auto.
Qed.

Lemma found_false (s : str) : found s = false -> s = [].
Proof. destruct s; [reflexivity|discriminate]. Qed.

(** X18. [POST /extract] with method auto (or without a method) never
    answers 500. Either it answers 200 with a message that is not empty and
    is what [extract_message] returns for the method it names, one of the
    three; or it answers 400, and then every one of the three methods
    extracts the empty message from the text. *)
Theorem extract_text_auto (items : json_object) (stego_text : str) :
  item (lit "stego_text") items = Some stego_text ->
  item (lit "method") items = None \/ item (lit "method") items = Some (lit "auto") ->
  (exists extracted method confidence message,
     extract_text (Some items) = (ExtractBody extracted method confidence message, 200) /\
     extracted <> [] /\ supported method /\
     extract_message stego_text method = Ok extracted) \/
  (extract_text (Some items) =
     (ErrorBody (Message (lit "Could not extract message from text using any method")), 400) /\
   forall method, supported method -> extract_message stego_text method = Ok []).
Proof.
  intros Ht Hm. unfold extract_text.
  destruct (item_has_key _ _ _ Ht) as (-> & -> & ->).
  rewrite (method_auto _ Hm). cbn [negb orb]. cbv zeta.
  change (str_eqb (lit "auto") (lit "auto")) with true. cbv iota.
  pose proof (recommended_method_supported stego_text) as Hsup.
  rewrite (extract_message_decodes _ _ Hsup).
  destruct (found (decode_binary _)) eqn:Ef.
  { left. do 4 eexists. split; [reflexivity|]. split; [now apply found_nonempty|].
    split; [exact Hsup|now apply extract_message_decodes]. }
  clear Ef Hsup. cbn [try_methods].
  change (extract_message stego_text (lit "whitespace"))
    with (Ok (_extract_whitespace stego_text)).
  change (extract_message stego_text (lit "synonym"))
    with (Ok (_extract_synonym stego_text)).
  change (extract_message stego_text (lit "binary"))
    with (Ok (_extract_binary stego_text)).
  cbv beta iota.
  destruct (found (_extract_whitespace stego_text)) eqn:E1.
  { left. do 4 eexists. split; [reflexivity|]. split; [now apply found_nonempty|].
    split; [unfold supported; auto|reflexivity]. }
  destruct (found (_extract_synonym stego_text)) eqn:E2.
  { left. do 4 eexists. split; [reflexivity|]. split; [now apply found_nonempty|].
    split; [unfold supported; auto|reflexivity]. }
  destruct (found (_extract_binary stego_text)) eqn:E3.
  { left. do 4 eexists. split; [reflexivity|]. split; [now apply found_nonempty|].
    split; [unfold supported; auto|reflexivity]. }
  right. split; [reflexivity|].
  apply found_false in E1, E2, E3.
  intros method [ -> | [ -> | -> ] ].
  - change (Ok (_extract_whitespace stego_text) = Ok []). now rewrite E1.
  - change (Ok (_extract_synonym stego_text) = Ok []). now rewrite E2.
  - change (Ok (_extract_binary stego_text) = Ok []). now rewrite E3.
Qed.

Lemma extract_text_auto_witness :
  (exists extracted method confidence message,
     extract_text (Some [(lit "stego_text", lit "no tabs and Few words")]) =
       (ExtractBody extracted method confidence message, 200) /\
     extracted <> [] /\ supported method /\
     extract_message (lit "no tabs and Few words") method = Ok extracted) \/
  (extract_text (Some [(lit "stego_text", lit "no tabs and Few words")]) =
     (ErrorBody (Message (lit "Could not extract message from text using any method")), 400) /\
   forall method, supported method ->
     extract_message (lit "no tabs and Few words") method = Ok []).
Proof.
  apply extract_text_auto.
  - reflexivity.
  - left. reflexivity.
Defined.

(** X19. End to end with method auto on both routes: for a cover of 1 to
    29 words and a payload of one or two non-zero bytes, [POST /embed]
    chooses whitespace and answers 200 with a text of fewer than 30 words, on
    which [POST /extract] predicts whitespace and answers 200 with the
    payload, at confidence 0.95. *)
Theorem routes_auto_roundtrip (embed_items : json_object) (cover_text payload : str) :
  item (lit "cover_text") embed_items = Some cover_text ->
  item (lit "secret_message") embed_items = Some payload ->
  item (lit "method") embed_items = None \/
  item (lit "method") embed_items = Some (lit "auto") ->
  split cover_text <> [] ->
  length (split cover_text) < 30 ->
  payload_ok payload ->
  1 <= length payload <= 2 ->
  exists stego_text,
    embed_text (Some embed_items) =
      (EmbedBody stego_text (lit "whitespace") (lit "Text embedded successfully"), 200) /\
    forall extract_items : json_object,
      item (lit "stego_text") extract_items = Some stego_text ->
      item (lit "method") extract_items = None \/
      item (lit "method") extract_items = Some (lit "auto") ->
      extract_text (Some extract_items) =
        (ExtractBody payload (lit "whitespace") 0.95%float
           (lit "Message extracted successfully using AI prediction"), 200).
Proof.
  intros Hc Hs Hm Hne Hshort Hp Hlen.
  destruct (_extract_embed_whitespace cover_text payload Hne Hp) as (stego & He & Hx).
  destruct (_embed_whitespace_exact cover_text payload Hne) as (extra & Hextra & Hwords & E).
  rewrite He in E. injection E as E.
  assert (Hstego : length (split stego) < 30).
  { rewrite E, split_weave by now apply extended_words.
    rewrite Hwords, to_binary_bytes_length by apply (payload_ok_bytes _ Hp). lia. }
  clear E Hwords Hextra extra.
  exists stego. split.
  - unfold embed_text.
    destruct (item_has_key _ _ _ Hc) as (-> & -> & ->).
    destruct (item_has_key _ _ _ Hs) as (-> & -> & _).
    rewrite (method_auto _ Hm). cbn [negb orb]. cbv zeta.
    change (str_eqb (lit "auto") (lit "auto")) with true. cbv iota.
    destruct (analysis_short cover_text Hshort) as (-> & _).
    change (embed_message cover_text payload (lit "whitespace"))
      with (_embed_whitespace cover_text payload).
    now rewrite He.
  - intros extract_items Ht Hm'. unfold extract_text.
    destruct (item_has_key _ _ _ Ht) as (-> & -> & ->).
    rewrite (method_auto _ Hm'). cbn [negb orb]. cbv zeta.
    change (str_eqb (lit "auto") (lit "auto")) with true. cbv iota.
    destruct (analysis_short stego Hstego) as (-> & -> & _).
    change (extract_message stego (lit "whitespace")) with (Ok (_extract_whitespace stego)).
    rewrite Hx. destruct payload; [cbn in Hlen; lia|reflexivity].
Qed.

Lemma routes_auto_roundtrip_witness :
  exists stego_text,
    embed_text (Some [(lit "cover_text", lit "a b c"); (lit "secret_message", lit "Hi")]) =
      (EmbedBody stego_text (lit "whitespace") (lit "Text embedded successfully"), 200) /\
    extract_text (Some [(lit "stego_text", stego_text)]) =
      (ExtractBody (lit "Hi") (lit "whitespace") 0.95%float
         (lit "Message extracted successfully using AI prediction"), 200).
Proof.
  destruct (routes_auto_roundtrip
              [(lit "cover_text", lit "a b c"); (lit "secret_message", lit "Hi")]
              (lit "a b c") (lit "Hi"))
    as (stego_text & H1 & H2).
  - reflexivity.
  - reflexivity.
  - left. reflexivity.
  - vm_compute. discriminate.
  - vm_compute. lia.
  - repeat constructor.
  - vm_compute. lia.
  - exists stego_text. split; [exact H1|].
    apply (H2 [(lit "stego_text", stego_text)]); [reflexivity|left; reflexivity].
Defined.

(** ** Layering *)

(** X20. Layering: when a text has at least [8 * len(payload) + 9] words,
    embedding a payload of non-zero bytes with method whitespace gives a text
    from which the whitespace extractor returns the payload while the synonym
    and the capitalisation extractor return what they returned before, since
    they read only the words. *)
Theorem whitespace_layering (text payload : str) :
  8 * length payload + 9 <= length (split text) ->
  payload_ok payload ->
  exists stego_text,
    embed_message text payload (lit "whitespace") = Ok stego_text /\
    extract_message stego_text (lit "whitespace") = Ok payload /\
    extract_message stego_text (lit "synonym") = extract_message text (lit "synonym") /\
    extract_message stego_text (lit "binary") = extract_message text (lit "binary").
Proof.
  intros Hbig Hp.
  assert (Hne : split text <> []) by (destruct (split text); [cbn in Hbig; lia|discriminate]).
  destruct (_extract_embed_whitespace text payload Hne Hp) as (stego & He & Hx).
  destruct (_embed_whitespace_exact text payload Hne) as (extra & Hextra & Hwords & E).
  rewrite He in E. injection E as E.
  assert (Hsplit : split stego = split text).
  { rewrite E, split_weave by now apply extended_words.
    rewrite to_binary_bytes_length in Hwords by apply (payload_ok_bytes _ Hp).
    rewrite length_app in Hwords.
    assert (Hz : length extra = 0) by lia.
    apply length_zero_iff_nil in Hz. rewrite Hz. apply app_nil_r. }
  exists stego. split; [exact He|]. split; [|split].
  - change (Ok (_extract_whitespace stego) = Ok payload). now rewrite Hx.
  - change (Ok (_extract_synonym stego) = Ok (_extract_synonym text)).
    unfold _extract_synonym, synonym_bits. now rewrite Hsplit.
  - change (Ok (_extract_binary stego) = Ok (_extract_binary text)).
    unfold _extract_binary, binary_bits. now rewrite Hsplit.
Qed.

Lemma whitespace_layering_witness :
  exists stego_text,
    embed_message (_embed_synonym farm_cover (lit "A")) (lit "B") (lit "whitespace")
      = Ok stego_text /\
    extract_message stego_text (lit "whitespace") = Ok (lit "B") /\
    extract_message stego_text (lit "synonym") =
      extract_message (_embed_synonym farm_cover (lit "A")) (lit "synonym") /\
    extract_message stego_text (lit "binary") =
      extract_message (_embed_synonym farm_cover (lit "A")) (lit "binary").
Proof.
  apply whitespace_layering.
  - vm_compute. lia.
  - repeat constructor.
Defined.
